(** * Verification of the GitHub upload helper (src/app.py)

    The development embeds [upload_with_real_progress] and the library
    operations it calls ([str.split], [base64.b64encode], [f.read],
    [tqdm.update], [requests.put]) and states the properties of the
    chunked-upload helper over that embedding.

    Python [bytes] are [list byte], Python [str] is [string], Python [int]
    is [Z] where it can be negative and [nat] for lengths and byte counts.
    Effects (file access, progress updates, printing, the HTTP request) are
    recorded as a trace of events next to the outcome of the call. *)

From Stdlib Require Import String Ascii List ZArith NArith Lia Bool Arith Sorted.
From Stdlib Require Import DecimalString.
From Stdlib.Strings Require Import Byte.
From Equations Require Import Equations.
Import ListNotations.

Local Open Scope string_scope.
Local Open Scope list_scope.

(* ===================================================================== *)
(** * Strings: [in], [split], formatting *)
(* ===================================================================== *)

Module PyStr.

(** [sep in s] for a one-character [sep]. *)
Fixpoint contains (sep : ascii) (s : string) : bool :=
  match s with
  | EmptyString => false
  | String c s' => Ascii.eqb c sep || contains sep s'
  end.

(** [s.split(sep)] for a one-character [sep]: every occurrence of [sep]
    ends a segment, so [k] occurrences give [k + 1] segments. *)
Fixpoint split (sep : ascii) (s : string) : list string :=
  match s with
  | EmptyString => [EmptyString]
  | String c s' =>
      if Ascii.eqb c sep then EmptyString :: split sep s'
      else match split sep s' with
           | [] => [String c EmptyString]
           | seg :: segs => String c seg :: segs
           end
  end.

(** The part of [s] before the first [sep] (all of [s] when there is none). *)
Fixpoint before (sep : ascii) (s : string) : string :=
  match s with
  | EmptyString => EmptyString
  | String c s' => if Ascii.eqb c sep then EmptyString
                   else String c (before sep s')
  end.

(** The part of [s] after the first [sep] (empty when there is none). *)
Fixpoint after (sep : ascii) (s : string) : string :=
  match s with
  | EmptyString => EmptyString
  | String c s' => if Ascii.eqb c sep then s' else after sep s'
  end.

(** [str(n)] and [f"{n}"] for an [int]. *)
Definition str_int (n : Z) : string := NilZero.string_of_int (Z.to_int n).

(** Truth value of a string: the empty string is falsy. *)
Definition truthy (s : string) : bool :=
  match s with EmptyString => false | String _ _ => true end.

End PyStr.

(* ===================================================================== *)
(** * Base64 (the [base64] module of the Python standard library) *)
(* ===================================================================== *)

Module Base64.

Definition table_b2a_base64 : list byte :=
  list_byte_of_string
    "ABCDEFGHIJKLMNOPQRSTUVWXYZabcdefghijklmnopqrstuvwxyz0123456789+/".

Definition BASE64_PAD : byte := "="%byte.

(** The character of a 6-bit value. *)
Definition b2a (n : N) : byte := nth (N.to_nat n) table_b2a_base64 BASE64_PAD.

Fixpoint index_of (c : byte) (tbl : list byte) (i : N) : option N :=
  match tbl with
  | [] => None
  | x :: tbl' => if Byte.eqb x c then Some i else index_of c tbl' (N.succ i)
  end.

(** The 6-bit value of a character of the alphabet, [None] for any other
    byte (the padding character included). *)
Definition a2b (c : byte) : option N := index_of c table_b2a_base64 0%N.

Definition byte_of_N (n : N) : byte :=
  match Byte.of_N (n mod 256) with
  | Some b => b
  | None => x00
  end.

Section Groups.
Local Open Scope N_scope.

(** The four 6-bit values of a group of three bytes. *)
Definition sextet1 (a : N) : N := a / 4.
Definition sextet2 (a b : N) : N := (a mod 4) * 16 + b / 16.
Definition sextet3 (b c : N) : N := (b mod 16) * 4 + c / 64.
Definition sextet4 (c : N) : N := c mod 64.

(** The three bytes of a group of four 6-bit values. *)
Definition octet1 (n1 n2 : N) : byte := byte_of_N (n1 * 4 + n2 / 16).
Definition octet2 (n2 n3 : N) : byte := byte_of_N ((n2 mod 16) * 16 + n3 / 4).
Definition octet3 (n3 n4 : N) : byte := byte_of_N ((n3 mod 4) * 64 + n4).

End Groups.

(** [base64.b64encode(s)]: the standard alphabet, three bytes to four
    characters, the last group padded with [=] to four characters. *)
Fixpoint b64encode (s : list byte) : list byte :=
  match s with
  | [] => []
  | [a] =>
      let a := Byte.to_N a in
      [b2a (sextet1 a); b2a (sextet2 a 0); BASE64_PAD; BASE64_PAD]
  | [a; b] =>
      let a := Byte.to_N a in
      let b := Byte.to_N b in
      [b2a (sextet1 a); b2a (sextet2 a b); b2a (sextet3 b 0); BASE64_PAD]
  | a :: b :: c :: rest =>
      let a := Byte.to_N a in
      let b := Byte.to_N b in
      let c := Byte.to_N c in
      b2a (sextet1 a) :: b2a (sextet2 a b) :: b2a (sextet3 b c)
        :: b2a (sextet4 c) :: b64encode rest
  end.

(** The validating decoder, as RFC 4648 has it and as
    [base64.b64decode(s, validate=True)] decodes every input it is given
    here: the input is a sequence of groups of four characters of the
    alphabet, and only the last group may end in one or two padding
    characters; anything else is an error.  (The Python function is more
    permissive in one case, padding that follows a complete group, as in
    ["AAAA="], which it accepts; no encoding and no payload of the upload
    has that shape.) *)
Fixpoint b64decode (s : list byte) : option (list byte) :=
  match s with
  | [] => Some []
  | c1 :: c2 :: c3 :: c4 :: rest =>
      match a2b c1, a2b c2 with
      | Some n1, Some n2 =>
          match rest with
          | [] =>
              match a2b c3, a2b c4 with
              | Some n3, Some n4 =>
                  Some [octet1 n1 n2; octet2 n2 n3; octet3 n3 n4]
              | Some n3, None =>
                  if Byte.eqb c4 BASE64_PAD
                  then Some [octet1 n1 n2; octet2 n2 n3] else None
              | None, _ =>
                  if Byte.eqb c3 BASE64_PAD && Byte.eqb c4 BASE64_PAD
                  then Some [octet1 n1 n2] else None
              end
          | _ :: _ =>
              match a2b c3, a2b c4, b64decode rest with
              | Some n3, Some n4, Some out =>
                  Some (octet1 n1 n2 :: octet2 n2 n3 :: octet3 n3 n4 :: out)
              | _, _, _ => None
              end
          end
      | _, _ => None
      end
  | _ => None
  end.

(** [base64.b64decode(s)] with its default [validate=False], the loop of
    [binascii.a2b_base64]: bytes outside the alphabet are skipped, a
    padding character that completes a group ends the decoding and the
    rest of the input is ignored, and an incomplete last group is an
    error.  [out] is the output so far. *)
Fixpoint a2b_base64_loop (s : list byte) (quad_pos : nat) (leftchar : N)
    (pads : nat) (out : list byte) : option (list byte) :=
  match s with
  | [] => if Nat.eqb quad_pos 0 then Some out else None
  | this_ch :: s' =>
      if Byte.eqb this_ch BASE64_PAD then
        if Nat.leb 2 quad_pos then
          if Nat.leb 4 (quad_pos + S pads) then Some out
          else a2b_base64_loop s' quad_pos leftchar (S pads) out
        else a2b_base64_loop s' quad_pos leftchar pads out
      else
        match a2b this_ch with
        | None => a2b_base64_loop s' quad_pos leftchar pads out
        | Some v =>
            match quad_pos with
            | 0 => a2b_base64_loop s' 1 v 0 out
            | 1 => a2b_base64_loop s' 2 (v mod 16)%N 0
                     (out ++ [byte_of_N (leftchar * 4 + v / 16)%N])
            | 2 => a2b_base64_loop s' 3 (v mod 4)%N 0
                     (out ++ [byte_of_N (leftchar * 16 + v / 4)%N])
            | _ => a2b_base64_loop s' 0 0%N 0
                     (out ++ [byte_of_N (leftchar * 64 + v)%N])
            end
        end
  end.

Definition a2b_base64 (s : list byte) : option (list byte) :=
  a2b_base64_loop s 0 0%N 0 [].

End Base64.

(* ===================================================================== *)
(** * The environment of a call and its observable effects *)
(* ===================================================================== *)

(** Exceptions the function can raise.  [ValueError] is raised by the
    function itself, [IndexError] by list indexing, [UnicodeDecodeError] by
    [bytes.decode], [OSError] by [os.path.getsize], [open] and [f.read],
    [RequestException] by [requests.put]. *)
Inductive exn : Type :=
| ValueError (msg : string)
| IndexError
| UnicodeDecodeError
| OSError
| RequestException.

Inductive result (A : Type) : Type :=
| Ok (a : A)
| Raise (e : exn).
Arguments Ok {A} a.
Arguments Raise {A} e.

(** The progress bar: [n] bytes reported so far out of [total]. *)
Record tqdm : Type := { n : nat; total : nat }.

(** [pbar.update(k)]. *)
Definition update (pbar : tqdm) (k : nat) : tqdm :=
  {| n := n pbar + k; total := total pbar |}.

(** An open file: the bytes not read yet, and, when the device fails, the
    number of [read] calls that still succeed before one raises. *)
Record file : Type := { content : list byte; fault : option nat }.

(** [f.read(size)] on a file opened in binary mode: [size] bytes, or all
    the remaining ones when fewer are left. *)
Definition read (f : file) (size : nat) : option (list byte * file) :=
  match fault f with
  | Some 0 => None
  | _ => Some (firstn size (content f),
               {| content := skipn size (content f);
                  fault := option_map Nat.pred (fault f) |})
  end.

Record Response : Type := { status_code : Z; text : string }.

(** A Python [dict] with string keys and values, in insertion order. *)
Definition dict : Type := list (string * string).

Fixpoint get (d : dict) (key : string) : option string :=
  match d with
  | [] => None
  | (k, v) :: d' => if String.eqb k key then Some v else get d' key
  end.

(** What the call finds outside: the file system and the network.  [None]
    stands for the exception of the operation. *)
Record World : Type := {
  os_path_getsize : string -> option nat;
  open_rb : string -> option file;
  requests_put : string -> dict -> dict -> option Response
}.

(** The module-level configuration read from [CONFIG]. *)
Record Config : Type := {
  GITHUB_TOKEN : string;
  BRANCH_NAME : string;
  REPO_NAME : string
}.

Inductive event : Type :=
| Getsize (path : string)
| Open (path : string)
| Read (size : nat)
| Update (k : nat) (pbar : tqdm)
| Close
| Print (s : string)
| Put (url : string) (headers json : dict).

(** A computation: the events it performed, and how it ended. *)
Definition M (A : Type) : Type := list event * result A.

Definition ret {A} (a : A) : M A := ([], Ok a).
Definition raise {A} (e : exn) : M A := ([], Raise e).
Definition emit (ev : event) : M unit := ([ev], Ok tt).

Definition bind {A B} (m : M A) (k : A -> M B) : M B :=
  match m with
  | (t, Ok a) => let (t', r) := k a in (t ++ t', r)
  | (t, Raise e) => (t, Raise e)
  end.

Notation "x <- m ;; k" := (bind m (fun x => k))
  (at level 61, m at next level, right associativity).
Notation "m ;;; k" := (bind m (fun _ => k))
  (at level 61, right associativity).

(** [t] happened before [m]. *)
Definition after_events {A} (t : list event) (m : M A) : M A :=
  (t ++ fst m, snd m).

(** The value a call returns: Python's [None], or a result value. *)
Inductive UploadResult : Type :=
| Success
| Failure (status_code : Z) (message : string).

Inductive retval : Type :=
| RNone
| RResult (r : UploadResult).

(* ===================================================================== *)
(** * The upload (src/app.py) *)
(* ===================================================================== *)

(** [l[i]]. *)
Definition getitem (l : list string) (i : nat) : M string :=
  match nth_error l i with
  | Some x => ret x
  | None => raise IndexError
  end.

(** [os.path.getsize(path)], for a path the system is asked about.  (A
    path with a NUL character is refused before that, with a [ValueError];
    [World] has no such paths.) *)
Definition getsize (w : World) (path : string) : M nat :=
  match os_path_getsize w path with
  | Some size => ([Getsize path], Ok size)
  | None => ([Getsize path], Raise OSError)
  end.

(** [b.decode("utf-8")], on ASCII input; any other byte is taken to raise. *)
Definition is_ascii (b : byte) : bool := (Byte.to_N b <? 128)%N.

Definition decode_utf8 (b : list byte) : M string :=
  if forallb is_ascii b then ret (string_of_list_byte b)
  else raise UnicodeDecodeError.

(** The [while True] loop of lines 31-36, for a chunk size [size] (4096 in
    the source). *)
Equations? read_loop (size : nat) (f : file) (encoded_chunks : list (list byte))
    (pbar : tqdm) : M (list (list byte)) by wf (length (content f)) lt :=
read_loop size f encoded_chunks pbar with Logic.inspect (read f size) := {
  | exist _ None _ => ([Read size], Raise OSError)
  | exist _ (Some ([], _)) _ => ([Read size], Ok encoded_chunks)
  | exist _ (Some (b :: chunk, f')) Hread =>
      let pbar' := update pbar (length (b :: chunk)) in
      after_events [Read size; Update (length (b :: chunk)) pbar']
        (read_loop size f'
           (encoded_chunks ++ [Base64.b64encode (b :: chunk)]) pbar') }.
Proof.
  unfold read in Hread.
  destruct (fault f) as [[|k]|]; try discriminate;
    injection Hread as Hchunk Hf'; subst f'; simpl;
    rewrite length_skipn;
    (destruct size; [discriminate|]);
    (destruct (content f); [discriminate|]); simpl; lia.
Qed.

(** [with open(path, "rb") as f: body]: the file is closed on every way
    out of the body. *)
Definition with_open {A} (w : World) (path : string) (body : file -> M A)
  : M A :=
  match open_rb w path with
  | None => ([Open path], Raise OSError)
  | Some f => let (t, r) := body f in (Open path :: t ++ [Close], r)
  end.

(** [requests.put(url, headers=headers, json=data)]. *)
Definition put (w : World) (url : string) (headers data : dict)
  : M Response :=
  match requests_put w url headers data with
  | Some response => ([Put url headers data], Ok response)
  | None => ([Put url headers data], Raise RequestException)
  end.

Definition print (s : string) : M unit := emit (Print s).

(** [str(x)] for an optional string, as an f-string renders it. *)
Definition str_opt (x : option string) : string :=
  match x with Some s => s | None => "None" end.

(** [not x] for an optional string. *)
Definition falsy (x : option string) : bool :=
  match x with Some s => negb (PyStr.truthy s) | None => true end.

Definition newline : string := String "010" EmptyString.

Definition upload_with_real_progress (cfg : Config) (w : World)
    (local_file_path github_file_path commit_message : string) : M retval :=
  owner <- (if PyStr.contains "/" (REPO_NAME cfg)
            then (s <- getitem (PyStr.split "/" (REPO_NAME cfg)) 0 ;; ret (Some s))
            else ret None) ;;
  repo_name <- (if PyStr.contains "/" (REPO_NAME cfg)
                then getitem (PyStr.split "/" (REPO_NAME cfg)) 1
                else ret (REPO_NAME cfg)) ;;
  (if falsy owner
   then raise (ValueError "GITHUB_REPO_NAME must be in 'owner/repo' format.")
   else ret tt) ;;;
  let url := ("https://api.github.com/repos/" ++ str_opt owner ++ "/"
              ++ repo_name ++ "/contents/" ++ github_file_path)%string in
  file_size <- getsize w local_file_path ;;
  let headers := [("Authorization", ("token " ++ GITHUB_TOKEN cfg)%string);
                  ("Accept", "application/vnd.github.v3+json")] in
  encoded_chunks <- with_open w local_file_path (fun f =>
      read_loop 4096 f [] {| n := 0; total := file_size |}) ;;
  content_b64 <- decode_utf8 (concat encoded_chunks) ;;
  let data := [("message", commit_message);
               ("content", content_b64);
               ("branch", BRANCH_NAME cfg)] in
  print (newline ++ "Finalizing upload to GitHub (this may take a moment)...")%string ;;;
  response <- put w url headers data ;;
  (if existsb (Z.eqb (status_code response)) [200; 201]%Z
   then print "✅ Upload successful!"
   else print ("❌ Upload failed: " ++ PyStr.str_int (status_code response)
               ++ " - " ++ text response)%string) ;;;
  ret RNone.


(** ** What a trace shows *)

(** The byte counts passed to [pbar.update], in order. *)
Definition updates (t : list event) : list nat :=
  flat_map (fun ev => match ev with Update k _ => [k] | _ => [] end) t.

(** The progress bar as it stands after each update. *)
Definition observations (t : list event) : list tqdm :=
  flat_map (fun ev => match ev with Update _ pbar => [pbar] | _ => [] end) t.

(** The HTTP requests issued: url, headers, JSON body. *)
Definition puts (t : list event) : list (string * dict * dict) :=
  flat_map (fun ev => match ev with
                      | Put url headers json => [(url, headers, json)]
                      | _ => []
                      end) t.

(** The events of the read loop: reads and progress updates. *)
Definition loop_event (ev : event) : Prop :=
  match ev with Read _ | Update _ _ => True | _ => False end.

(** ** The request and the messages, as the function builds them *)

Definition format_error : string :=
  "GITHUB_REPO_NAME must be in 'owner/repo' format.".

(** The guard of lines 12-16: the identifier has a [/] and something
    before the first one. *)
Definition accepted (repo : string) : bool :=
  PyStr.contains "/" repo && PyStr.truthy (PyStr.before "/" repo).

(** Line 18, for the owner and the repo name the function extracts. *)
Definition contents_url (owner repo_name github_file_path : string) : string :=
  ("https://api.github.com/repos/" ++ owner ++ "/" ++ repo_name
   ++ "/contents/" ++ github_file_path)%string.

Definition request_url (cfg : Config) (github_file_path : string) : string :=
  contents_url (PyStr.before "/" (REPO_NAME cfg))
    (PyStr.before "/" (PyStr.after "/" (REPO_NAME cfg))) github_file_path.

Definition request_headers (cfg : Config) : dict :=
  [("Authorization", ("token " ++ GITHUB_TOKEN cfg)%string);
   ("Accept", "application/vnd.github.v3+json")].

Definition request_data (cfg : Config) (commit_message content_b64 : string)
  : dict :=
  [("message", commit_message);
   ("content", content_b64);
   ("branch", BRANCH_NAME cfg)].

Definition finalizing : string :=
  (newline ++ "Finalizing upload to GitHub (this may take a moment)...")%string.

Definition success_message : string := "✅ Upload successful!".

Definition failure_message (status : Z) (body : string) : string :=
  ("❌ Upload failed: " ++ PyStr.str_int status ++ " - " ++ body)%string.

(** The message printed for a response (lines 50-53). *)
Definition report (response : Response) : string :=
  if existsb (Z.eqb (status_code response)) [200; 201]%Z
  then success_message
  else failure_message (status_code response) (text response).

(** The file accesses of a run that got as far as the end of the [with]
    block, around the events [t] of the read loop. *)
Definition file_events (path : string) (t : list event) : list event :=
  Getsize path :: Open path :: t ++ [Close].

(** The [content] field of the body of the first request of a trace. *)
Definition transmitted (t : list event) : option string :=
  match puts t with
  | (_, _, json) :: _ => get json "content"
  | [] => None
  end.

(** ** Concrete environments *)

Definition sample_config (repo : string) : Config :=
  {| GITHUB_TOKEN := "secret"; BRANCH_NAME := "main"; REPO_NAME := repo |}.

(** A world with one readable file holding [bytes], whatever the path, and
    a server that answers every request with [response]. *)
Definition sample_world (bytes : list byte) (response : option Response)
  : World :=
  {| os_path_getsize := fun _ => Some (length bytes);
     open_rb := fun _ => Some {| content := bytes; fault := None |};
     requests_put := fun _ _ _ => response |}.

(** A world without the file. *)
Definition empty_world : World :=
  {| os_path_getsize := fun _ => None;
     open_rb := fun _ => None;
     requests_put := fun _ _ _ => None |}.

Definition created : Response := {| status_code := 201; text := "{}" |}.

Definition bad_credentials : Response :=
  {| status_code := 403; text := "Bad credentials" |}.

(** A world whose file is there but fails at read number [k], counted
    from zero. *)
Definition faulty_world (bytes : list byte) (k : nat) : World :=
  {| os_path_getsize := fun _ => Some (length bytes);
     open_rb := fun _ => Some {| content := bytes; fault := Some k |};
     requests_put := fun _ _ _ => Some created |}.

(** A world where the size measured is [size], whatever the file holds. *)
Definition stale_world (size : nat) (bytes : list byte) : World :=
  {| os_path_getsize := fun _ => Some size;
     open_rb := fun _ => Some {| content := bytes; fault := None |};
     requests_put := fun _ _ _ => Some created |}.

(** The ways a run can end, as a trace and an outcome: the identifier is
    refused; a file operation fails; the request fails in transport; the
    server answers. *)
Inductive ending (cfg : Config) (w : World)
    (github_file_path commit_message : string) : M retval -> Prop :=
| refused :
    ending cfg w github_file_path commit_message
      ([], Raise (ValueError format_error))
| file_failed t :
    puts t = [] ->
    ending cfg w github_file_path commit_message (t, Raise OSError)
| transport_failed t content_b64 :
    puts t = [] ->
    requests_put w (request_url cfg github_file_path) (request_headers cfg)
      (request_data cfg commit_message content_b64) = None ->
    ending cfg w github_file_path commit_message
      (t ++ [Print finalizing;
             Put (request_url cfg github_file_path) (request_headers cfg)
               (request_data cfg commit_message content_b64)],
       Raise RequestException)
| answered t content_b64 response :
    puts t = [] ->
    requests_put w (request_url cfg github_file_path) (request_headers cfg)
      (request_data cfg commit_message content_b64) = Some response ->
    ending cfg w github_file_path commit_message
      (t ++ [Print finalizing;
             Put (request_url cfg github_file_path) (request_headers cfg)
               (request_data cfg commit_message content_b64);
             Print (report response)],
       Ok RNone).

(** The last thing a trace did. *)
Definition last_event (t : list event) : option event :=
  match rev t with [] => None | ev :: _ => Some ev end.

(** ** The chunks of a file *)

(** The successive results of [f.read(size)] on a file holding [l], up to
    the empty one that ends the loop.  Each chunk takes at least one byte,
    so [fuel] rounds are enough once [fuel] is the length of [l]. *)
Fixpoint chunks_fuel (fuel size : nat) (l : list byte) : list (list byte) :=
  match fuel with
  | 0 => []
  | S fuel' =>
      match firstn size l with
      | [] => []
      | chunk => chunk :: chunks_fuel fuel' size (skipn size l)
      end
  end.

Definition chunks (size : nat) (l : list byte) : list (list byte) :=
  chunks_fuel (length l) size l.

(** What a run does once the file is closed: it prints and sends. *)
Definition after_close (ev : event) : Prop :=
  match ev with Print _ | Put _ _ _ => True | _ => False end.

(* ===================================================================== *)
(** * The program: prompts, then the upload (src/app.py, lines 56-61) *)
(* ===================================================================== *)

Module Console.

(** The characters [str.strip()] removes, as their UTF-8 bytes: the ASCII
    control characters 9 to 13 and 28 to 31, the space, and the Unicode
    spaces U+0085, U+00A0, U+1680, U+2000 to U+200A, U+2028, U+2029,
    U+202F, U+205F and U+3000. *)
Definition whitespace : list string :=
  [String "009" ""; String "010" ""; String "011" ""; String "012" "";
   String "013" ""; String "028" ""; String "029" ""; String "030" "";
   String "031" ""; String "032" "";
   String "194" (String "133" ""); String "194" (String "160" "");
   String "225" (String "154" (String "128" ""));
   String "226" (String "128" (String "128" ""));
   String "226" (String "128" (String "129" ""));
   String "226" (String "128" (String "130" ""));
   String "226" (String "128" (String "131" ""));
   String "226" (String "128" (String "132" ""));
   String "226" (String "128" (String "133" ""));
   String "226" (String "128" (String "134" ""));
   String "226" (String "128" (String "135" ""));
   String "226" (String "128" (String "136" ""));
   String "226" (String "128" (String "137" ""));
   String "226" (String "128" (String "138" ""));
   String "226" (String "128" (String "168" ""));
   String "226" (String "128" (String "169" ""));
   String "226" (String "128" (String "175" ""));
   String "226" (String "129" (String "159" ""));
   String "227" (String "128" (String "128" ""))].

(** What follows [p] in [s], when [s] starts with [p]. *)
Fixpoint after_prefix (p s : string) : option string :=
  match p, s with
  | EmptyString, _ => Some s
  | String a p', String b s' =>
      if Ascii.eqb a b then after_prefix p' s' else None
  | String _ _, EmptyString => None
  end.

(** What follows the first of [pats] that starts [s]. *)
Fixpoint first_match (pats : list string) (s : string) : option string :=
  match pats with
  | [] => None
  | p :: pats' =>
      match after_prefix p s with
      | Some rest => Some rest
      | None => first_match pats' s
      end
  end.

(** Removing leading occurrences of [pats], at most [fuel] of them. *)
Fixpoint lstrip_fuel (fuel : nat) (pats : list string) (s : string) : string :=
  match fuel with
  | 0 => s
  | S fuel' =>
      match first_match pats s with
      | Some rest => lstrip_fuel fuel' pats rest
      | None => s
      end
  end.

Definition reverse (s : string) : string :=
  string_of_list_ascii (rev (list_ascii_of_string s)).

(** [s.lstrip()], [s.rstrip()] and [s.strip()]. *)
Definition lstrip (s : string) : string :=
  lstrip_fuel (String.length s) whitespace s.

Definition rstrip (s : string) : string :=
  reverse (lstrip_fuel (String.length s) (map reverse whitespace) (reverse s)).

Definition strip (s : string) : string := rstrip (lstrip s).

(** What the program shows on the console: its prompts, and what the
    upload does. *)
Inductive console_event : Type :=
| Prompt (text : string)
| Inner (ev : event).

(** How the program ends: normally, or with an uncaught exception. *)
Inductive exit : Type :=
| Finished
| EOFError
| Uncaught (e : exn).

(** [input(prompt)] on the lines still to be read: the next line, without
    its end of line, or [None] at the end of the input. *)
Definition input (stdin : list string) : option (string * list string) :=
  match stdin with
  | [] => None
  | line :: stdin' => Some (line, stdin')
  end.

Definition local_prompt : string := "Enter the local file path to upload: ".

Definition github_prompt : string :=
  "Enter the destination path on GitHub (e.g., folder/filename.ext): ".

Definition commit_prompt : string := "Enter the commit message: ".

(** The body of [if __name__ == "__main__":]. *)
Definition main (cfg : Config) (w : World) (stdin : list string)
  : list console_event * exit :=
  match input stdin with
  | None => ([Prompt local_prompt], EOFError)
  | Some (line1, stdin1) =>
      let local_path := strip line1 in
      match input stdin1 with
      | None => ([Prompt local_prompt; Prompt github_prompt], EOFError)
      | Some (line2, stdin2) =>
          let github_path := strip line2 in
          match input stdin2 with
          | None =>
              ([Prompt local_prompt; Prompt github_prompt;
                Prompt commit_prompt], EOFError)
          | Some (line3, _) =>
              let commit_msg := strip line3 in
              let (t, r) :=
                upload_with_real_progress cfg w local_path github_path
                  commit_msg in
              ([Prompt local_prompt; Prompt github_prompt;
                Prompt commit_prompt] ++ map Inner t,
               match r with
               | Ok _ => Finished
               | Raise e => Uncaught e
               end)
          end
      end
  end.

(** A string that is a sequence of strings of [pats]. *)
Inductive made_of (pats : list string) : string -> Prop :=
| made_of_empty : made_of pats ""
| made_of_more p s :
    In p pats -> made_of pats s -> made_of pats (p ++ s)%string.

(** A string of whitespace only. *)
Definition blank (s : string) : Prop := made_of whitespace s.

(** The visible ASCII characters, from [!] to [~]. *)
Definition printable (c : ascii) : bool :=
  Nat.leb 33 (nat_of_ascii c) && Nat.leb (nat_of_ascii c) 126.

(** An answer that is empty, or begins and ends with a visible ASCII
    character. *)
Definition plain (s : string) : bool :=
  match s, reverse s with
  | String a _, String b _ => printable a && printable b
  | _, _ => true
  end.

End Console.

(** * Examples *)

Example split_abc : PyStr.split "/" "a/b/c" = ["a"; "b"; "c"].
Proof. reflexivity. Qed.

Example split_trailing : PyStr.split "/" "owner/" = ["owner"; ""].
Proof. reflexivity. Qed.

Example b64encode_foobar :
  Base64.b64encode (list_byte_of_string "fooba") = list_byte_of_string "Zm9vYmE=".
Proof. reflexivity. Qed.

Example a2b_base64_concat :
  Base64.a2b_base64 (list_byte_of_string "YWJjYQ==YWJj")
  = Some (list_byte_of_string "abca").
Proof. reflexivity. Qed.

(* ===================================================================== *)
(** * Facts about [split] *)
(* ===================================================================== *)

Module PyStrFacts.
Import PyStr.

Lemma split_not_nil sep s : split sep s <> [].
Proof.
  destruct s as [|c s]; simpl; [discriminate|].
  destruct (Ascii.eqb c sep); [discriminate|].
  destruct (split sep s); discriminate.
Qed.

(** The first segment is what stands before the first separator. *)
Lemma split_first sep s : nth_error (split sep s) 0 = Some (before sep s).
Proof.
  induction s as [|c s IH]; simpl; [reflexivity|].
  destruct (Ascii.eqb c sep); [reflexivity|].
  destruct (split sep s) as [|seg segs]; simpl in *; [discriminate|].
  injection IH as ->. reflexivity.
Qed.

(** With a separator in [s], the second segment is what stands between the
    first separator and the next one (or the end). *)
Lemma split_second sep s :
  contains sep s = true ->
  nth_error (split sep s) 1 = Some (before sep (after sep s)).
Proof.
  induction s as [|c s IH]; simpl; [discriminate|].
  destruct (Ascii.eqb c sep); simpl.
  - intros _. apply split_first.
  - intros H. specialize (IH H).
    pose proof (split_not_nil sep s) as Hne.
    destruct (split sep s) as [|seg segs]; [contradiction|exact IH].
Qed.

(** A string with a separator is its first segment, the separator, and
    the rest. *)
Lemma contains_decompose sep s :
  contains sep s = true ->
  s = (before sep s ++ String sep (after sep s))%string.
Proof.
  induction s as [|c s IH]; simpl; [discriminate|].
  destruct (Ascii.eqb_spec c sep) as [->|Hne]; simpl.
  - reflexivity.
  - intros H. f_equal. exact (IH H).
Qed.

Lemma before_no_sep sep s : contains sep (before sep s) = false.
Proof.
  induction s as [|c s IH]; simpl; [reflexivity|].
  destruct (Ascii.eqb c sep) eqn:E; simpl; [reflexivity|].
  rewrite E. exact IH.
Qed.

(** Reading [pre ++ sep ++ post] with no separator in [pre]. *)
Lemma before_app sep pre post :
  contains sep pre = false ->
  before sep (pre ++ String sep post) = pre.
Proof.
  induction pre as [|c pre IH]; simpl.
  - rewrite Ascii.eqb_refl. reflexivity.
  - destruct (Ascii.eqb c sep); simpl; [discriminate|].
    intros H. f_equal. exact (IH H).
Qed.

Lemma after_app sep pre post :
  contains sep pre = false ->
  after sep (pre ++ String sep post) = post.
Proof.
  induction pre as [|c pre IH]; simpl.
  - rewrite Ascii.eqb_refl. reflexivity.
  - destruct (Ascii.eqb c sep); simpl; [discriminate|].
    exact IH.
Qed.

Lemma contains_app sep pre post :
  contains sep (pre ++ String sep post) = true.
Proof.
  induction pre as [|c pre IH]; simpl.
  - rewrite Ascii.eqb_refl. reflexivity.
  - rewrite IH. apply orb_true_r.
Qed.

Lemma before_all sep s : contains sep s = false -> before sep s = s.
Proof.
  induction s as [|c s IH]; simpl; [reflexivity|].
  destruct (Ascii.eqb c sep); simpl; [discriminate|].
  intros H. f_equal. exact (IH H).
Qed.

End PyStrFacts.

(* ===================================================================== *)
(** * Facts about base64 *)
(* ===================================================================== *)

Module Base64Facts.
Import Base64.

(** Induction on a byte string three bytes at a time, as [b64encode] reads
    it. *)
Lemma list_ind3 {A} (P : list A -> Prop) :
  P [] ->
  (forall a, P [a]) ->
  (forall a b, P [a; b]) ->
  (forall a b c l, P l -> P (a :: b :: c :: l)) ->
  forall l, P l.
Proof.
  intros H0 H1 H2 H3 l.
  assert (H : P l /\ (forall a, P (a :: l)) /\ (forall a b, P (a :: b :: l))).
  { induction l as [|x l (IHa & IHb & IHc)].
    - repeat split; auto.
    - repeat split; auto. }
  apply H.
Qed.

Lemma b64encode_nil_inv l : b64encode l = [] -> l = [].
Proof. destruct l as [|a [|b [|c l]]]; simpl; congruence. Qed.

Lemma length_b64encode l :
  length (b64encode l) = 4 * ((length l + 2) / 3).
Proof.
  induction l as [| a | a b | a b c l IH] using list_ind3; try reflexivity.
  cbn [b64encode length]. rewrite IH.
  replace (S (S (S (length l))) + 2) with (length l + 2 + 1 * 3) by lia.
  rewrite Nat.div_add by lia. lia.
Qed.

(** Encoding distributes over a split at a multiple of three bytes. *)
Lemma b64encode_app l1 l2 :
  length l1 mod 3 = 0 ->
  b64encode (l1 ++ l2) = b64encode l1 ++ b64encode l2.
Proof.
  induction l1 as [| a | a b | a b c l1 IH] using list_ind3;
    try (simpl; discriminate); [reflexivity|].
  intros H. cbn [length] in H.
  replace (S (S (S (length l1)))) with (length l1 + 1 * 3) in H by lia.
  rewrite Nat.Div0.mod_add in H.
  cbn [app b64encode]. rewrite (IH H). reflexivity.
Qed.

Lemma table_length : length table_b2a_base64 = 64.
Proof. reflexivity. Qed.

(** Every character of the alphabet decodes to its own index. *)
Lemma a2b_b2a n : (n < 64)%N -> a2b (b2a n) = Some n.
Proof.
  intros H.
  assert (Hall : forallb (fun i => match a2b (b2a (N.of_nat i)) with
                                   | Some m => N.eqb m (N.of_nat i)
                                   | None => false
                                   end) (seq 0 64) = true) by (vm_compute; reflexivity).
  rewrite forallb_forall in Hall.
  specialize (Hall (N.to_nat n)).
  rewrite N2Nat.id in Hall.
  destruct (a2b (b2a n)) as [m|].
  - f_equal. apply N.eqb_eq. apply Hall. apply in_seq. lia.
  - discriminate Hall. apply in_seq. lia.
Qed.

Lemma b2a_in n : In (b2a n) (BASE64_PAD :: table_b2a_base64).
Proof.
  unfold b2a.
  destruct (nth_in_or_default (N.to_nat n) table_b2a_base64 BASE64_PAD) as [H|H].
  - right. exact H.
  - left. symmetry. exact H.
Qed.

Lemma b2a_not_pad n : (n < 64)%N -> b2a n <> BASE64_PAD.
Proof.
  intros H E. pose proof (a2b_b2a n H) as Hn. rewrite E in Hn. discriminate Hn.
Qed.

Lemma a2b_pad : a2b BASE64_PAD = None.
Proof. reflexivity. Qed.

Lemma byte_of_N_to_N b : byte_of_N (Byte.to_N b) = b.
Proof.
  unfold byte_of_N. pose proof (Byte.to_N_bounded b).
  rewrite N.mod_small by lia. rewrite Byte.of_to_N. reflexivity.
Qed.

Section Arithmetic.
Local Open Scope N_scope.

Ltac Zify.zify_post_hook ::= Z.to_euclidean_division_equations.

Lemma sextet1_lt a : a < 256 -> sextet1 a < 64.
Proof. unfold sextet1. lia. Qed.

Lemma sextet2_lt a b : b < 256 -> sextet2 a b < 64.
Proof. unfold sextet2. lia. Qed.

Lemma sextet3_lt b c : c < 256 -> sextet3 b c < 64.
Proof. unfold sextet3. lia. Qed.

Lemma sextet4_lt c : sextet4 c < 64.
Proof. unfold sextet4. lia. Qed.

Lemma group1 a b : b < 256 -> sextet1 a * 4 + sextet2 a b / 16 = a.
Proof. unfold sextet1, sextet2. lia. Qed.

Lemma group2 a b c :
  b < 256 -> c < 256 -> (sextet2 a b mod 16) * 16 + sextet3 b c / 4 = b.
Proof. unfold sextet2, sextet3. lia. Qed.

Lemma group3 b c : c < 256 -> (sextet3 b c mod 4) * 64 + sextet4 c = c.
Proof. unfold sextet3, sextet4. lia. Qed.

End Arithmetic.

Lemma to_N_lt b : (Byte.to_N b < 256)%N.
Proof. pose proof (Byte.to_N_bounded b). lia. Qed.

Lemma octet1_sextets a b :
  (b < 256)%N ->
  octet1 (sextet1 (Byte.to_N a)) (sextet2 (Byte.to_N a) b) = a.
Proof. intros H. unfold octet1. rewrite group1 by exact H. apply byte_of_N_to_N. Qed.

Lemma octet2_sextets a b c :
  (c < 256)%N ->
  octet2 (sextet2 a (Byte.to_N b)) (sextet3 (Byte.to_N b) c) = b.
Proof.
  intros H. unfold octet2.
  rewrite group2 by (exact H || apply to_N_lt). apply byte_of_N_to_N.
Qed.

Lemma octet3_sextets b c :
  octet3 (sextet3 b (Byte.to_N c)) (sextet4 (Byte.to_N c)) = c.
Proof. unfold octet3. rewrite group3 by apply to_N_lt. apply byte_of_N_to_N. Qed.

Ltac sextet_bounds :=
  first [ apply sextet1_lt | apply sextet2_lt | apply sextet3_lt
        | apply sextet4_lt ]; first [ apply to_N_lt | reflexivity ].

Lemma pad_eqb : Byte.eqb BASE64_PAD BASE64_PAD = true.
Proof. reflexivity. Qed.

(** Decoding undoes encoding, whatever the length of the input. *)
Lemma b64decode_b64encode l : b64decode (b64encode l) = Some l.
Proof.
  induction l as [| a | a b | a b c l IH] using list_ind3.
  - reflexivity.
  - cbn [b64encode b64decode].
    rewrite !a2b_b2a by sextet_bounds. rewrite a2b_pad, pad_eqb.
    cbn [andb]. rewrite octet1_sextets by reflexivity. reflexivity.
  - cbn [b64encode b64decode].
    rewrite !a2b_b2a by sextet_bounds. rewrite a2b_pad, pad_eqb.
    rewrite octet1_sextets by apply to_N_lt.
    rewrite octet2_sextets by reflexivity. reflexivity.
  - cbn [b64encode b64decode].
    rewrite !a2b_b2a by sextet_bounds.
    rewrite octet1_sextets by apply to_N_lt.
    rewrite octet2_sextets by apply to_N_lt.
    rewrite octet3_sextets.
    destruct (b64encode l) as [|x enc] eqn:E.
    + apply b64encode_nil_inv in E. subst l. reflexivity.
    + rewrite IH. reflexivity.
Qed.

Lemma is_ascii_table :
  forallb is_ascii (BASE64_PAD :: table_b2a_base64) = true.
Proof. reflexivity. Qed.

Lemma b2a_ascii n : is_ascii (b2a n) = true.
Proof.
  pose proof is_ascii_table as H. rewrite forallb_forall in H.
  apply H. apply b2a_in.
Qed.

(** The encoder only writes ASCII characters. *)
Lemma b64encode_ascii l : forallb is_ascii (b64encode l) = true.
Proof.
  induction l as [| a | a b | a b c l IH] using list_ind3;
    cbn [b64encode forallb]; rewrite ?b2a_ascii, ?IH; reflexivity.
Qed.

End Base64Facts.

(* ===================================================================== *)
(** * The read loop *)
(* ===================================================================== *)

Module ReadLoop.

Lemma read_Some f size c f' :
  read f size = Some (c, f') ->
  c = firstn size (content f)
  /\ content f' = skipn size (content f)
  /\ fault f' = option_map Nat.pred (fault f).
Proof.
  unfold read. destruct (fault f) as [[|k]|]; try discriminate;
    intros H; injection H as <- <-; auto.
Qed.

Lemma read_readable f size :
  fault f = None ->
  read f size = Some (firstn size (content f),
                      {| content := skipn size (content f); fault := None |}).
Proof. unfold read. intros ->. reflexivity. Qed.

(** A chunk and what is left of the file make up the file. *)
Lemma read_content f size c f' :
  read f size = Some (c, f') -> content f = c ++ content f'.
Proof.
  intros H. apply read_Some in H as (-> & -> & _).
  symmetry. apply firstn_skipn.
Qed.

Lemma updates_app t1 t2 : updates (t1 ++ t2) = updates t1 ++ updates t2.
Proof. apply flat_map_app. Qed.

Lemma observations_app t1 t2 :
  observations (t1 ++ t2) = observations t1 ++ observations t2.
Proof. apply flat_map_app. Qed.

Lemma puts_app t1 t2 : puts (t1 ++ t2) = puts t1 ++ puts t2.
Proof. apply flat_map_app. Qed.

(** After [funelim] on the loop, one case per way through its body: keep
    the equation of the read and name the hypothesis for the next
    iteration [IHloop]. *)
Ltac loop_cases :=
  repeat match goal with
         | H : @eq (sigma _) _ _ |- _ => clear H
         | H : _ = read_loop _ _ _ _ |- _ => clear H
         end;
  try match goal with
      | H : context [read_loop] |- _ => rename H into IHloop
      end;
  try match goal with
      | H : read _ _ = Some (?b :: ?chunk, _) |- _ =>
          set (c := b :: chunk) in *; clearbody c; clear b chunk
      end.

Lemma read_loop_events size f enc pbar :
  Forall loop_event (fst (read_loop size f enc pbar)).
Proof.
  funelim (read_loop size f enc pbar); loop_cases; simpl in *.
  - repeat constructor.
  - repeat constructor. assumption.
  - repeat constructor.
Qed.

Lemma loop_events_puts t : Forall loop_event t -> puts t = [].
Proof.
  induction 1 as [|ev t Hev _ IH]; [reflexivity|].
  destruct ev; simpl in *; try contradiction; exact IH.
Qed.

Lemma read_loop_puts size f enc pbar :
  puts (fst (read_loop size f enc pbar)) = [].
Proof. apply loop_events_puts, read_loop_events. Qed.

(** The loop raises nothing but the error of a failed read. *)
Lemma read_loop_raises size f enc pbar e :
  snd (read_loop size f enc pbar) = Raise e -> e = OSError.
Proof.
  funelim (read_loop size f enc pbar); loop_cases; simpl in *; intros E.
  - discriminate.
  - auto.
  - congruence.
Qed.

(** The byte counts reported add up to the bytes of the file. *)
Lemma read_loop_updates_sum size f enc pbar :
  0 < size -> fault f = None ->
  list_sum (updates (fst (read_loop size f enc pbar))) = length (content f).
Proof.
  funelim (read_loop size f enc pbar); loop_cases; simpl in *;
    intros Hsize Hfault.
  - apply read_Some in e as (E & _ & _).
    destruct (content f) as [|x l]; [reflexivity|].
    destruct size; [lia|discriminate].
  - pose proof (read_content _ _ _ _ Hread) as Hc.
    apply read_Some in Hread as (_ & _ & Hf').
    rewrite Hfault in Hf'. rewrite IHloop by assumption.
    rewrite Hc. simpl. rewrite length_app. simpl. lia.
  - unfold read in e. rewrite Hfault in e. discriminate.
Qed.

(** Every observation lies between the count the loop started from and
    that count plus the bytes of the file, and the counts never go down. *)
Lemma read_loop_observations size f enc pbar :
  let obs := observations (fst (read_loop size f enc pbar)) in
  Forall (fun p => n pbar <= n p <= n pbar + length (content f)
                   /\ total p = total pbar) obs
  /\ StronglySorted le (map n obs).
Proof.
  funelim (read_loop size f enc pbar); loop_cases; simpl in *.
  - split; constructor.
  - pose proof (read_content _ _ _ _ Hread) as Hc.
    destruct IHloop as [Hall Hsorted].
    rewrite Hc, length_app.
    split.
    + constructor; [simpl; lia|].
      eapply Forall_impl; [|exact Hall]. simpl. intros p. lia.
    + constructor; [exact Hsorted|].
      apply Forall_map.
      eapply Forall_impl; [|exact Hall]. simpl. intros p. lia.
  - split; constructor.
Qed.

(** A readable file is read to the end: the loop returns. *)
Lemma read_loop_returns size f enc pbar :
  fault f = None -> exists out, snd (read_loop size f enc pbar) = Ok out.
Proof.
  funelim (read_loop size f enc pbar); loop_cases; simpl in *; intros Hfault.
  - eauto.
  - apply read_Some in Hread as (_ & _ & Hf').
    rewrite Hfault in Hf'. auto.
  - unfold read in e. rewrite Hfault in e. discriminate.
Qed.

(** What the loop returns is ASCII once what it started from is. *)
Lemma read_loop_ascii size f enc pbar out :
  forallb is_ascii (concat enc) = true ->
  snd (read_loop size f enc pbar) = Ok out ->
  forallb is_ascii (concat out) = true.
Proof.
  funelim (read_loop size f enc pbar); loop_cases; simpl in *; intros Henc Hout.
  - congruence.
  - apply IHloop; [|exact Hout].
    rewrite concat_app, forallb_app, Henc. simpl concat.
    rewrite app_nil_r. apply Base64Facts.b64encode_ascii.
  - discriminate.
Qed.

(** A file of at most one chunk is encoded in one piece. *)
Lemma read_loop_one_chunk size f enc pbar :
  fault f = None -> length (content f) <= size ->
  exists out,
    snd (read_loop size f enc pbar) = Ok out
    /\ concat out = concat enc ++ Base64.b64encode (content f).
Proof.
  funelim (read_loop size f enc pbar); loop_cases; simpl in *; intros Hfault Hlen.
  - apply read_Some in e as (E & _ & _).
    rewrite firstn_all2 in E by exact Hlen. rewrite <- E.
    exists encoded_chunks. rewrite app_nil_r. auto.
  - apply read_Some in Hread as (E & Hrest & Hf').
    rewrite Hfault in Hf'.
    rewrite firstn_all2 in E by exact Hlen.
    assert (Hnil : content f' = []).
    { rewrite Hrest. apply skipn_all2. exact Hlen. }
    destruct (IHloop Hf') as (out & Hout & Hcat).
    { rewrite Hnil. simpl. lia. }
    exists out. split; [exact Hout|].
    rewrite Hcat, Hnil, concat_app, <- E. simpl. rewrite !app_nil_r. reflexivity.
  - unfold read in e. rewrite Hfault in e. discriminate.
Qed.

(** With a chunk size that is a multiple of three, the chunks put together
    are the encoding of the file. *)
Lemma read_loop_aligned size f enc pbar :
  0 < size -> size mod 3 = 0 -> fault f = None ->
  exists out,
    snd (read_loop size f enc pbar) = Ok out
    /\ concat out = concat enc ++ Base64.b64encode (content f).
Proof.
  funelim (read_loop size f enc pbar); loop_cases;
    unfold after_events; cbn [fst snd]; intros Hsize Hmod Hfault.
  - apply read_Some in e as (E & _ & _).
    destruct (content f) as [|x l]; [|destruct size; [lia|discriminate]].
    exists encoded_chunks. rewrite app_nil_r. auto.
  - pose proof (read_content _ _ _ _ Hread) as Hc.
    apply read_Some in Hread as (E & Hrest & Hf').
    rewrite Hfault in Hf'.
    destruct (IHloop Hsize Hmod Hf') as (out & Hout & Hcat).
    exists out. split; [exact Hout|].
    rewrite Hcat, concat_app. simpl concat. rewrite app_nil_r, <- app_assoc.
    f_equal. rewrite Hc.
    destruct (Nat.le_gt_cases size (length (content f))) as [Hle|Hgt].
    + symmetry. apply Base64Facts.b64encode_app.
      rewrite E, length_firstn, Nat.min_l by exact Hle. exact Hmod.
    + assert (Hnil : content f' = []).
      { rewrite Hrest. apply skipn_all2. lia. }
      rewrite Hnil. cbn [Base64.b64encode]. rewrite !app_nil_r. reflexivity.
  - unfold read in e. rewrite Hfault in e. discriminate.
Qed.

End ReadLoop.

(* ===================================================================== *)
(** * The runs of the upload *)
(* ===================================================================== *)

Module Run.
Import PyStrFacts ReadLoop.

(** Every run of the function, path by path: the guard, the size, the
    opening of the file, the read loop, the decoding of the payload and
    the request. *)
Lemma upload_run cfg w local_file_path github_file_path commit_message :
  upload_with_real_progress cfg w local_file_path github_file_path
    commit_message =
  if accepted (REPO_NAME cfg) then
    match os_path_getsize w local_file_path with
    | None => ([Getsize local_file_path], Raise OSError)
    | Some file_size =>
        match open_rb w local_file_path with
        | None => ([Getsize local_file_path; Open local_file_path],
                   Raise OSError)
        | Some f =>
            match read_loop 4096 f [] {| n := 0; total := file_size |} with
            | (t, Raise e) => (file_events local_file_path t, Raise e)
            | (t, Ok encoded_chunks) =>
                if forallb is_ascii (concat encoded_chunks) then
                  let url := request_url cfg github_file_path in
                  let headers := request_headers cfg in
                  let data :=
                    request_data cfg commit_message
                      (string_of_list_byte (concat encoded_chunks)) in
                  match requests_put w url headers data with
                  | None =>
                      (file_events local_file_path t
                         ++ [Print finalizing; Put url headers data],
                       Raise RequestException)
                  | Some response =>
                      (file_events local_file_path t
                         ++ [Print finalizing; Put url headers data;
                             Print (report response)],
                       Ok RNone)
                  end
                else (file_events local_file_path t, Raise UnicodeDecodeError)
            end
        end
    end
  else ([], Raise (ValueError format_error)).
Proof.
  unfold upload_with_real_progress, accepted.
  destruct (PyStr.contains "/" (REPO_NAME cfg)) eqn:Hc; [|reflexivity].
  unfold getitem. rewrite split_first, (split_second _ _ Hc).
  cbn [bind ret raise fst snd app andb falsy].
  destruct (PyStr.truthy (PyStr.before "/" (REPO_NAME cfg))); [|reflexivity].
  cbn [negb bind ret raise app].
  unfold getsize, with_open.
  destruct (os_path_getsize w local_file_path) as [file_size|]; [|reflexivity].
  cbn [bind app].
  destruct (open_rb w local_file_path) as [f|]; [|reflexivity].
  destruct (read_loop 4096 f [] {| n := 0; total := file_size |})
    as [t [encoded_chunks|e]]; [|reflexivity].
  cbn [bind app]. unfold decode_utf8.
  destruct (forallb is_ascii (concat encoded_chunks)).
  - cbn [bind ret app print emit]. unfold put, request_url, contents_url,
      request_headers, request_data.
    cbn [str_opt].
    match goal with |- context [requests_put w ?u ?h ?d] =>
      destruct (requests_put w u h d) as [response|] end.
    + cbn [bind app]. unfold report.
      destruct (existsb (Z.eqb (status_code response)) [200; 201]%Z);
        cbn [bind ret app print emit]; unfold file_events;
        cbn [app]; rewrite ?app_nil_r, <- ?app_assoc; reflexivity.
    + cbn [bind ret app]. unfold file_events.
      cbn [app]. rewrite ?app_nil_r, <- ?app_assoc. reflexivity.
  - cbn [bind raise app]. unfold file_events. rewrite app_nil_r. reflexivity.
Qed.

(** ** Traces of a run *)

Lemma puts_file_events path t : puts (file_events path t) = puts t.
Proof.
  unfold file_events. cbn [puts flat_map app].
  fold (puts (t ++ [Close])). rewrite puts_app. apply app_nil_r.
Qed.

Lemma updates_file_events path t : updates (file_events path t) = updates t.
Proof.
  unfold file_events. cbn [updates flat_map app].
  fold (updates (t ++ [Close])). rewrite updates_app. apply app_nil_r.
Qed.

Lemma observations_file_events path t :
  observations (file_events path t) = observations t.
Proof.
  unfold file_events. cbn [observations flat_map app].
  fold (observations (t ++ [Close])). rewrite observations_app.
  apply app_nil_r.
Qed.


Lemma last_event_snoc3 t ev1 ev2 ev3 :
  last_event (t ++ [ev1; ev2; ev3]) = Some ev3.
Proof. unfold last_event. rewrite rev_app_distr. reflexivity. Qed.

(** The run of an accepted identifier on a readable file: it goes through
    the whole file and issues the request. *)
Lemma upload_readable cfg w local_file_path github_file_path commit_message
    file_size f :
  accepted (REPO_NAME cfg) = true ->
  os_path_getsize w local_file_path = Some file_size ->
  open_rb w local_file_path = Some f ->
  fault f = None ->
  exists t encoded_chunks,
    read_loop 4096 f [] {| n := 0; total := file_size |}
    = (t, Ok encoded_chunks)
    /\ upload_with_real_progress cfg w local_file_path github_file_path
         commit_message
       = let url := request_url cfg github_file_path in
         let headers := request_headers cfg in
         let data := request_data cfg commit_message
                       (string_of_list_byte (concat encoded_chunks)) in
         match requests_put w url headers data with
         | None =>
             (file_events local_file_path t
                ++ [Print finalizing; Put url headers data],
              Raise RequestException)
         | Some response =>
             (file_events local_file_path t
                ++ [Print finalizing; Put url headers data;
                    Print (report response)],
              Ok RNone)
         end.
Proof.
  intros Hacc Hsize Hopen Hfault.
  rewrite upload_run, Hacc, Hsize, Hopen.
  destruct (read_loop_returns 4096 f [] {| n := 0; total := file_size |} Hfault)
    as [out Hout].
  pose proof (read_loop_ascii 4096 f [] {| n := 0; total := file_size |} out
                eq_refl Hout) as Hascii.
  destruct (read_loop 4096 f [] {| n := 0; total := file_size |})
    as [t r] eqn:Hloop.
  cbn [snd] in Hout. subst r.
  exists t, out. split; [reflexivity|].
  rewrite Hascii. reflexivity.
Qed.


(** Every run ends in one of the four ways of [ending]. *)
Lemma upload_ending cfg w local_file_path github_file_path commit_message :
  ending cfg w github_file_path commit_message
    (upload_with_real_progress cfg w local_file_path github_file_path
       commit_message).
Proof.
  rewrite upload_run.
  destruct (accepted (REPO_NAME cfg)); [|constructor].
  destruct (os_path_getsize w local_file_path) as [file_size|];
    [|constructor; reflexivity].
  destruct (open_rb w local_file_path) as [f|]; [|constructor; reflexivity].
  pose proof (read_loop_puts 4096 f [] {| n := 0; total := file_size |}) as Hp.
  pose proof (read_loop_raises 4096 f [] {| n := 0; total := file_size |})
    as Hraise.
  pose proof (read_loop_ascii 4096 f [] {| n := 0; total := file_size |})
    as Hascii.
  destruct (read_loop 4096 f [] {| n := 0; total := file_size |})
    as [t [encoded_chunks|e]]; cbn [fst snd] in *.
  - rewrite (Hascii encoded_chunks eq_refl eq_refl). cbv zeta.
    destruct (requests_put w _ _ _) as [response|] eqn:Hput.
    + eapply answered; [|exact Hput]. rewrite puts_file_events. exact Hp.
    + eapply transport_failed; [|exact Hput].
      rewrite puts_file_events. exact Hp.
  - rewrite (Hraise e eq_refl). constructor.
    rewrite puts_file_events. exact Hp.
Qed.

End Run.

(* ===================================================================== *)
(** * Properties of the upload *)
(* ===================================================================== *)

Module Properties.
Import PyStrFacts Base64Facts ReadLoop Run.

(** ** Payload *)

(** A file of at most one chunk is transmitted as its base64 encoding, and
    decoding the payload gives the file back. *)
Lemma small_file_round_trip cfg w local_file_path github_file_path
    commit_message file_size f response :
  accepted (REPO_NAME cfg) = true ->
  os_path_getsize w local_file_path = Some file_size ->
  open_rb w local_file_path = Some f ->
  fault f = None ->
  length (content f) <= 4096 ->
  (forall url headers data, requests_put w url headers data = Some response) ->
  exists payload,
    transmitted (fst (upload_with_real_progress cfg w local_file_path
                        github_file_path commit_message)) = Some payload
    /\ Base64.b64decode (list_byte_of_string payload) = Some (content f).
Proof.
  intros Hacc Hsize Hopen Hfault Hlen Hput.
  destruct (upload_readable cfg w local_file_path github_file_path
              commit_message file_size f Hacc Hsize Hopen Hfault)
    as (t & chunks & Hloop & Hrun).
  destruct (read_loop_one_chunk 4096 f [] {| n := 0; total := file_size |}
              Hfault Hlen) as (out & Hout & Hcat).
  rewrite Hloop in Hout. cbn [snd] in Hout. injection Hout as <-.
  cbn [concat app] in Hcat.
  exists (string_of_list_byte (Base64.b64encode (content f))).
  rewrite Hrun. cbv zeta. rewrite Hput. cbn [fst].
  unfold transmitted.
  rewrite puts_app, puts_file_events.
  pose proof (read_loop_puts 4096 f [] {| n := 0; total := file_size |}) as Hp.
  rewrite Hloop in Hp. cbn [fst] in Hp. rewrite Hp, Hcat.
  split; [reflexivity|].
  rewrite list_byte_of_string_of_list_byte. apply b64decode_b64encode.
Qed.

(** C1: the payload of a file of 4097 zero bytes is the encoding of its
    first 4096 bytes followed by the encoding of the last one.  It is not
    the base64 encoding of the file, the validating decoder rejects it, and
    the default decoder stops at the padding of the first chunk and gives
    back 4096 of the 4097 bytes. *)
Theorem chunked_payload_is_not_the_file :
  let original := repeat x00 4097 in
  let payload :=
    string_of_list_byte
      (Base64.b64encode (repeat x00 4096) ++ Base64.b64encode [x00]) in
  transmitted
    (fst (upload_with_real_progress (sample_config "owner/repo")
            (sample_world original (Some created))
            "zeros.bin" "zeros.bin" "add zeros"))
  = Some payload
  /\ payload <> string_of_list_byte (Base64.b64encode original)
  /\ Base64.b64decode (list_byte_of_string payload) = None
  /\ Base64.a2b_base64 (list_byte_of_string payload)
     = Some (repeat x00 4096)
  /\ Base64.a2b_base64 (list_byte_of_string payload) <> Some original.
Proof.
  cbv zeta. split; [vm_compute; reflexivity|].
  split.
  { apply String.eqb_neq. vm_compute. reflexivity. }
  split; [vm_compute; reflexivity|].
  assert (H : Base64.a2b_base64
                (list_byte_of_string
                   (string_of_list_byte
                      (Base64.b64encode (repeat x00 4096)
                         ++ Base64.b64encode [x00])))
              = Some (repeat x00 4096)) by (vm_compute; reflexivity).
  split; [exact H|].
  rewrite H. intros E.
  apply (f_equal (option_map (@length byte))) in E.
  cbn [option_map] in E. rewrite !repeat_length in E.
  discriminate E.
Qed.

(** ** Validation of the repository identifier *)

(** What the guard rejects: an identifier without a slash, or with nothing
    before its first slash. *)
Lemma accepted_false repo :
  accepted repo = false <->
  PyStr.contains "/" repo = false \/ PyStr.before "/" repo = "".
Proof.
  unfold accepted. rewrite andb_false_iff.
  destruct (PyStr.before "/" repo); simpl; intuition congruence.
Qed.

(** A rejected identifier raises before anything is done. *)
Lemma rejected_before_io cfg w local_file_path github_file_path
    commit_message :
  accepted (REPO_NAME cfg) = false ->
  upload_with_real_progress cfg w local_file_path github_file_path
    commit_message = ([], Raise (ValueError format_error)).
Proof. intros H. rewrite upload_run, H. reflexivity. Qed.

(** C2: an identifier with an empty repo name, ["owner/"], passes the guard:
    the function reads the file and sends the request to a URL with an
    empty repo segment. *)
Theorem empty_repo_name_is_accepted :
  upload_with_real_progress (sample_config "owner/")
    (sample_world [] (Some created)) "a.txt" "a.txt" "add a"
  = ([Getsize "a.txt"; Open "a.txt"; Read 4096; Close; Print finalizing;
      Put "https://api.github.com/repos/owner//contents/a.txt"
        [("Authorization", "token secret");
         ("Accept", "application/vnd.github.v3+json")]
        [("message", "add a"); ("content", ""); ("branch", "main")];
      Print success_message],
     Ok RNone).
Proof. vm_compute. reflexivity. Qed.

(** ** The response *)



(** ** Progress *)

(** C4: over the read loop of a readable file, the byte counts passed to
    the progress bar add up to the number of bytes of the file. *)
Theorem progress_sums_to_file_size cfg w local_file_path github_file_path
    commit_message file_size f :
  accepted (REPO_NAME cfg) = true ->
  os_path_getsize w local_file_path = Some file_size ->
  open_rb w local_file_path = Some f ->
  fault f = None ->
  list_sum (updates (fst (upload_with_real_progress cfg w local_file_path
                            github_file_path commit_message)))
  = length (content f).
Proof.
  intros Hacc Hsize Hopen Hfault.
  destruct (upload_readable cfg w local_file_path github_file_path
              commit_message file_size f Hacc Hsize Hopen Hfault)
    as (t & chunks & Hloop & Hrun).
  pose proof (read_loop_updates_sum 4096 f [] {| n := 0; total := file_size |}
                ltac:(lia) Hfault) as Hsum.
  rewrite Hloop in Hsum. cbn [fst] in Hsum.
  rewrite Hrun. cbv zeta.
  destruct (requests_put w _ _ _); cbn [fst];
    rewrite updates_app, updates_file_events; cbn [updates flat_map app];
    rewrite app_nil_r; exact Hsum.
Qed.

Lemma progress_sums_to_file_size_witness :
  list_sum (updates (fst (upload_with_real_progress
                            (sample_config "owner/repo")
                            (sample_world (repeat x00 5000) (Some created))
                            "zeros.bin" "zeros.bin" "add zeros")))
  = 5000.
Proof.
  change 5000 with (length (content {| content := repeat x00 5000;
                                       fault := None |})) at 2.
  apply (progress_sums_to_file_size (sample_config "owner/repo")
           (sample_world (repeat x00 5000) (Some created))
           "zeros.bin" "zeros.bin" "add zeros" 5000); reflexivity.
Defined.

(** C8: when the size the function measured is the size of the file it
    then reads, every progress observation has its count within the total,
    and the counts never decrease from one observation to the next. *)
Theorem progress_bounded_and_monotone cfg w local_file_path github_file_path
    commit_message f :
  os_path_getsize w local_file_path = Some (length (content f)) ->
  open_rb w local_file_path = Some f ->
  let obs := observations
               (fst (upload_with_real_progress cfg w local_file_path
                       github_file_path commit_message)) in
  Forall (fun pbar => n pbar <= total pbar
                      /\ total pbar = length (content f)) obs
  /\ StronglySorted le (map n obs).
Proof.
  intros Hsize Hopen. cbv zeta. rewrite upload_run.
  destruct (accepted (REPO_NAME cfg)); [|split; constructor].
  rewrite Hsize, Hopen.
  pose proof (read_loop_observations 4096 f []
                {| n := 0; total := length (content f) |}) as Hobs.
  cbv zeta in Hobs. cbn [n total] in Hobs.
  destruct (read_loop 4096 f [] {| n := 0; total := length (content f) |})
    as [t r]; cbn [fst] in Hobs.
  assert (Hgoal :
    Forall (fun pbar => n pbar <= total pbar
                        /\ total pbar = length (content f)) (observations t)
    /\ StronglySorted le (map n (observations t))).
  { destruct Hobs as [Hall Hsorted]. split; [|exact Hsorted].
    eapply Forall_impl; [|exact Hall]. cbn beta. intros p. lia. }
  destruct r as [encoded_chunks|e]; [|cbn [fst];
    rewrite observations_file_events; exact Hgoal].
  destruct (forallb is_ascii (concat encoded_chunks)); [|cbn [fst];
    rewrite observations_file_events; exact Hgoal].
  cbv zeta.
  destruct (requests_put w _ _ _); cbn [fst];
    rewrite observations_app, observations_file_events;
    cbn [observations flat_map app]; rewrite app_nil_r; exact Hgoal.
Qed.

Lemma progress_bounded_and_monotone_witness :
  map n (observations
           (fst (upload_with_real_progress (sample_config "owner/repo")
                   (sample_world (repeat x00 5000) (Some created))
                   "zeros.bin" "zeros.bin" "add zeros")))
  = [4096; 5000]
  /\ StronglySorted le
       (map n (observations
                 (fst (upload_with_real_progress (sample_config "owner/repo")
                         (sample_world (repeat x00 5000) (Some created))
                         "zeros.bin" "zeros.bin" "add zeros")))).
Proof.
  split; [vm_compute; reflexivity|].
  apply (progress_bounded_and_monotone (sample_config "owner/repo")
           (sample_world (repeat x00 5000) (Some created))
           "zeros.bin" "zeros.bin" "add zeros"
           {| content := repeat x00 5000; fault := None |});
    reflexivity.
Defined.

(** ** Errors and the network *)

(** C5: a run that raises the error of the identifier or an error of the
    file has issued no HTTP request. *)
Theorem errors_precede_network cfg w local_file_path github_file_path
    commit_message e :
  snd (upload_with_real_progress cfg w local_file_path github_file_path
         commit_message) = Raise e ->
  (exists msg, e = ValueError msg) \/ e = OSError ->
  puts (fst (upload_with_real_progress cfg w local_file_path github_file_path
               commit_message)) = [].
Proof.
  destruct (upload_ending cfg w local_file_path github_file_path
              commit_message) as [|t Hp|t content_b64 Hp Hput
                                  |t content_b64 response Hp Hput];
    cbn [fst snd]; intros Hraise Herr.
  - reflexivity.
  - exact Hp.
  - injection Hraise as <-. destruct Herr as [[msg E]|E]; discriminate E.
  - discriminate Hraise.
Qed.

(** A missing file: the size cannot be read and nothing is sent. *)
Lemma errors_precede_network_witness :
  snd (upload_with_real_progress (sample_config "owner/repo") empty_world
         "missing.txt" "missing.txt" "add") = Raise OSError
  /\ puts (fst (upload_with_real_progress (sample_config "owner/repo")
                  empty_world "missing.txt" "missing.txt" "add")) = [].
Proof.
  split; [reflexivity|].
  apply (errors_precede_network (sample_config "owner/repo") empty_world
           "missing.txt" "missing.txt" "add" OSError);
    [reflexivity|right; reflexivity].
Defined.

(** C7: no run issues more than one request, and a run that gets to the
    network step (the identifier is accepted and the file is read) issues
    exactly one, whatever the server answers and also when the request
    itself fails. *)
Theorem single_request_no_retry cfg w local_file_path github_file_path
    commit_message :
  let run := upload_with_real_progress cfg w local_file_path
               github_file_path commit_message in
  length (puts (fst run)) <= 1
  /\ (forall file_size f,
        accepted (REPO_NAME cfg) = true ->
        os_path_getsize w local_file_path = Some file_size ->
        open_rb w local_file_path = Some f ->
        fault f = None ->
        length (puts (fst run)) = 1).
Proof.
  cbv zeta. split.
  - destruct (upload_ending cfg w local_file_path github_file_path
                commit_message) as [|t Hp|t content_b64 Hp Hput
                                    |t content_b64 response Hp Hput];
      cbn [fst]; rewrite ?puts_app, ?Hp; cbn; lia.
  - intros file_size f Hacc Hsize Hopen Hfault.
    destruct (upload_readable cfg w local_file_path github_file_path
                commit_message file_size f Hacc Hsize Hopen Hfault)
      as (t & chunks & Hloop & Hrun).
    pose proof (read_loop_puts 4096 f [] {| n := 0; total := file_size |})
      as Hp.
    rewrite Hloop in Hp. cbn [fst] in Hp.
    rewrite Hrun. cbv zeta.
    destruct (requests_put w _ _ _); cbn [fst];
      rewrite puts_app, puts_file_events, Hp; reflexivity.
Qed.

(** One request for a refused upload (403) and one when the request cannot
    be delivered. *)
Lemma single_request_no_retry_witness :
  length (puts (fst (upload_with_real_progress (sample_config "owner/repo")
                       (sample_world (list_byte_of_string "hello")
                          (Some bad_credentials))
                       "hello.txt" "hello.txt" "add hello"))) = 1
  /\ length (puts (fst (upload_with_real_progress
                          (sample_config "owner/repo")
                          (sample_world (list_byte_of_string "hello") None)
                          "hello.txt" "hello.txt" "add hello"))) = 1.
Proof.
  split.
  - apply (proj2 (single_request_no_retry (sample_config "owner/repo")
                    (sample_world (list_byte_of_string "hello")
                       (Some bad_credentials))
                    "hello.txt" "hello.txt" "add hello")
             5 {| content := list_byte_of_string "hello"; fault := None |});
      reflexivity.
  - apply (proj2 (single_request_no_retry (sample_config "owner/repo")
                    (sample_world (list_byte_of_string "hello") None)
                    "hello.txt" "hello.txt" "add hello")
             5 {| content := list_byte_of_string "hello"; fault := None |});
      reflexivity.
Defined.

(** C6: for an empty file the run issues one request, whose body has the
    empty string as its content, and with the answer 201 it ends by
    printing the success message. *)
Theorem empty_file_is_uploaded cfg w local_file_path github_file_path
    commit_message file_size f response :
  accepted (REPO_NAME cfg) = true ->
  os_path_getsize w local_file_path = Some file_size ->
  open_rb w local_file_path = Some f ->
  content f = [] ->
  fault f = None ->
  requests_put w (request_url cfg github_file_path) (request_headers cfg)
    (request_data cfg commit_message "") = Some response ->
  status_code response = 201%Z ->
  let run := upload_with_real_progress cfg w local_file_path
               github_file_path commit_message in
  puts (fst run)
  = [(request_url cfg github_file_path, request_headers cfg,
      request_data cfg commit_message "")]
  /\ transmitted (fst run) = Some ""
  /\ last_event (fst run) = Some (Print "✅ Upload successful!")
  /\ snd run = Ok RNone.
Proof.
  intros Hacc Hsize Hopen Hempty Hfault Hput Hstatus. cbv zeta.
  destruct (upload_readable cfg w local_file_path github_file_path
              commit_message file_size f Hacc Hsize Hopen Hfault)
    as (t & chunks & Hloop & Hrun).
  destruct (read_loop_one_chunk 4096 f [] {| n := 0; total := file_size |}
              Hfault) as (out & Hout & Hcat).
  { rewrite Hempty. cbn. lia. }
  rewrite Hloop in Hout. cbn [snd] in Hout. injection Hout as <-.
  rewrite Hempty in Hcat. cbn in Hcat.
  pose proof (read_loop_puts 4096 f [] {| n := 0; total := file_size |}) as Hp.
  rewrite Hloop in Hp. cbn [fst] in Hp.
  rewrite Hrun. cbv zeta. rewrite Hcat.
  change (string_of_list_byte []) with "".
  rewrite Hput. cbn [fst snd]. unfold transmitted.
  rewrite puts_app, puts_file_events, Hp, last_event_snoc3.
  unfold report. rewrite Hstatus.
  repeat split; reflexivity.
Qed.

Lemma empty_file_is_uploaded_witness :
  let run := upload_with_real_progress (sample_config "owner/repo")
               (sample_world [] (Some created))
               "empty.txt" "empty.txt" "add empty" in
  length (puts (fst run)) = 1
  /\ transmitted (fst run) = Some ""
  /\ last_event (fst run) = Some (Print "✅ Upload successful!").
Proof.
  cbv zeta.
  destruct (empty_file_is_uploaded (sample_config "owner/repo")
              (sample_world [] (Some created))
              "empty.txt" "empty.txt" "add empty"
              0 {| content := []; fault := None |} created)
    as (Hputs & Hcontent & Hlast & _); try reflexivity.
  rewrite Hputs. repeat split; assumption.
Defined.

(** ** The value returned *)

(** C9, as stated, fails: the call that uploads ["hello"] and is answered
    201 completes and returns [None], not a result value. *)
Lemma upload_returns_no_result :
  snd (upload_with_real_progress (sample_config "owner/repo")
         (sample_world (list_byte_of_string "hello") (Some created))
         "hello.txt" "hello.txt" "add hello") = Ok RNone
  /\ ~ (exists r : UploadResult,
          snd (upload_with_real_progress (sample_config "owner/repo")
                 (sample_world (list_byte_of_string "hello") (Some created))
                 "hello.txt" "hello.txt" "add hello") = Ok (RResult r)).
Proof.
  split; [reflexivity|]. intros [r E]. discriminate E.
Qed.

(** C9, amended: every call that completes returns [None].  It has issued
    exactly one request, the server has answered it, and the last thing
    the call did is print the outcome of that very answer: the success
    message when its status is 200 or 201, and otherwise the failure
    message with its status code and its body. *)
Theorem upload_returns_none cfg w local_file_path github_file_path
    commit_message v :
  let run := upload_with_real_progress cfg w local_file_path
               github_file_path commit_message in
  snd run = Ok v ->
  v = RNone
  /\ exists url headers json response,
       puts (fst run) = [(url, headers, json)]
       /\ requests_put w url headers json = Some response
       /\ last_event (fst run) = Some (Print (report response))
       /\ (status_code response = 200%Z \/ status_code response = 201%Z ->
           last_event (fst run) = Some (Print "✅ Upload successful!"))
       /\ (status_code response <> 200%Z ->
           status_code response <> 201%Z ->
           last_event (fst run)
           = Some (Print ("❌ Upload failed: "
                          ++ PyStr.str_int (status_code response)
                          ++ " - " ++ text response)%string)).
Proof.
  cbv zeta.
  destruct (upload_ending cfg w local_file_path github_file_path
              commit_message) as [|t Hp|t content_b64 Hp Hput
                                  |t content_b64 response Hp Hput];
    cbn [fst snd]; intros E; try discriminate E.
  injection E as <-. split; [reflexivity|].
  exists (request_url cfg github_file_path), (request_headers cfg),
    (request_data cfg commit_message content_b64), response.
  split; [rewrite puts_app, Hp; reflexivity|].
  split; [exact Hput|].
  rewrite last_event_snoc3.
  split; [reflexivity|]. unfold report. split.
  - intros [-> | ->]; reflexivity.
  - intros H200 H201.
    apply Z.eqb_neq in H200, H201.
    cbn [existsb]. rewrite H200, H201. reflexivity.
Qed.

(** The upload of ["hello"] answered 403 "Bad credentials": the call
    returns [None] and its last message is the failure with that status
    and that body. *)
Lemma upload_returns_none_witness :
  snd (upload_with_real_progress (sample_config "owner/repo")
         (sample_world (list_byte_of_string "hello") (Some bad_credentials))
         "hello.txt" "hello.txt" "add hello") = Ok RNone
  /\ last_event
       (fst (upload_with_real_progress (sample_config "owner/repo")
               (sample_world (list_byte_of_string "hello")
                  (Some bad_credentials))
               "hello.txt" "hello.txt" "add hello"))
     = Some (Print "❌ Upload failed: 403 - Bad credentials").
Proof.
  split; [reflexivity|].
  destruct (upload_returns_none (sample_config "owner/repo")
              (sample_world (list_byte_of_string "hello")
                 (Some bad_credentials))
              "hello.txt" "hello.txt" "add hello" RNone eq_refl)
    as (_ & url & headers & json & response & _ & Hput & _ & _ & Hfail).
  cbn [sample_world requests_put] in Hput. injection Hput as <-.
  apply Hfail; discriminate.
Defined.

(** ** The segments of the repository identifier *)

(** C10: for an identifier with a slash, the owner is what stands before
    the first slash and the repo name is the second segment of the split,
    what stands between the first slash and the next; whatever follows a
    second slash is dropped, and the request goes to the URL of that owner
    and that repo name. *)
Theorem repo_segments cfg w local_file_path github_file_path commit_message
    file_size f :
  PyStr.contains "/" (REPO_NAME cfg) = true ->
  let owner := PyStr.before "/" (REPO_NAME cfg) in
  let repo_name := PyStr.before "/" (PyStr.after "/" (REPO_NAME cfg)) in
  nth_error (PyStr.split "/" (REPO_NAME cfg)) 0 = Some owner
  /\ nth_error (PyStr.split "/" (REPO_NAME cfg)) 1 = Some repo_name
  /\ (forall rest,
        PyStr.after "/" (REPO_NAME cfg)
        = (repo_name ++ String "/" rest)%string ->
        REPO_NAME cfg
        = (owner ++ String "/" (repo_name ++ String "/" rest))%string)
  /\ (owner <> "" ->
      os_path_getsize w local_file_path = Some file_size ->
      open_rb w local_file_path = Some f ->
      fault f = None ->
      map (fun p => fst (fst p))
        (puts (fst (upload_with_real_progress cfg w local_file_path
                      github_file_path commit_message)))
      = [("https://api.github.com/repos/" ++ owner ++ "/" ++ repo_name
          ++ "/contents/" ++ github_file_path)%string]).
Proof.
  intros Hc. cbv zeta.
  split; [apply split_first|].
  split; [apply split_second; exact Hc|].
  split.
  - intros rest Hrest.
    rewrite (contains_decompose "/" (REPO_NAME cfg) Hc) at 1.
    rewrite Hrest at 1. reflexivity.
  - intros Howner Hsize Hopen Hfault.
    assert (Hacc : accepted (REPO_NAME cfg) = true).
    { unfold accepted. rewrite Hc.
      destruct (PyStr.before "/" (REPO_NAME cfg)); [contradiction|reflexivity]. }
    destruct (upload_readable cfg w local_file_path github_file_path
                commit_message file_size f Hacc Hsize Hopen Hfault)
      as (t & chunks & Hloop & Hrun).
    pose proof (read_loop_puts 4096 f [] {| n := 0; total := file_size |})
      as Hp.
    rewrite Hloop in Hp. cbn [fst] in Hp.
    rewrite Hrun. cbv zeta.
    destruct (requests_put w _ _ _); cbn [fst];
      rewrite puts_app, puts_file_events, Hp; reflexivity.
Qed.

(** The identifier ["a/b/c"]: the request goes to repo ["b"] of owner
    ["a"], and ["c"] is dropped. *)
Lemma repo_segments_witness :
  map (fun p => fst (fst p))
    (puts (fst (upload_with_real_progress (sample_config "a/b/c")
                  (sample_world (list_byte_of_string "hello") (Some created))
                  "hello.txt" "docs/hello.txt" "add hello")))
  = ["https://api.github.com/repos/a/b/contents/docs/hello.txt"].
Proof.
  apply (proj2 (proj2 (proj2
           (repo_segments (sample_config "a/b/c")
              (sample_world (list_byte_of_string "hello") (Some created))
              "hello.txt" "docs/hello.txt" "add hello"
              5 {| content := list_byte_of_string "hello"; fault := None |}
              eq_refl))));
    [discriminate|reflexivity|reflexivity|reflexivity].
Defined.

End Properties.

(* ===================================================================== *)
(** * The chunks read and what is sent for them *)
(* ===================================================================== *)

Module Chunks.
Import Base64Facts ReadLoop Run.

(** Like [loop_cases], keeping that a chunk the loop goes on with is not
    empty. *)
Ltac loop_steps :=
  repeat match goal with
         | H : @eq (sigma _) _ _ |- _ => clear H
         | H : _ = read_loop _ _ _ _ |- _ => clear H
         end;
  try match goal with
      | H : context [read_loop] |- _ => rename H into IHloop
      end;
  try match goal with
      | H : read _ _ = Some (?b :: ?chunk, _) |- _ =>
          assert (Hne : b :: chunk <> []) by discriminate;
          set (c := b :: chunk) in *; clearbody c; clear b chunk
      end.

Lemma chunks_fuel_irrelevant size l fuel1 fuel2 :
  length l <= fuel1 -> length l <= fuel2 ->
  chunks_fuel fuel1 size l = chunks_fuel fuel2 size l.
Proof.
  revert l fuel2.
  induction fuel1 as [|fuel1 IH]; intros l fuel2 H1 H2.
  - destruct l; [|simpl in H1; lia].
    destruct fuel2; [reflexivity|destruct size; reflexivity].
  - destruct l as [|x l].
    { destruct fuel2; destruct size; reflexivity. }
    destruct fuel2 as [|fuel2]; [simpl in H2; lia|].
    destruct size as [|size]; [reflexivity|].
    cbn [chunks_fuel firstn skipn]. f_equal.
    simpl in H1, H2.
    apply IH; rewrite length_skipn; lia.
Qed.

Lemma chunks_fuel_enough size l fuel :
  length l <= fuel -> chunks_fuel fuel size l = chunks size l.
Proof.
  intros H. unfold chunks. apply chunks_fuel_irrelevant; [exact H|lia].
Qed.

(** The first chunk and the chunks of the rest. *)
Lemma chunks_step size l :
  chunks size l =
  match firstn size l with
  | [] => []
  | chunk => chunk :: chunks size (skipn size l)
  end.
Proof.
  destruct l as [|x l]; [destruct size; reflexivity|].
  destruct size as [|size]; [reflexivity|].
  unfold chunks at 1. cbn [length chunks_fuel firstn skipn].
  f_equal. apply chunks_fuel_enough. rewrite length_skipn. lia.
Qed.

(** The chunks, put together, are the file. *)
Lemma concat_chunks size l : 0 < size -> concat (chunks size l) = l.
Proof.
  intros Hsize.
  induction l as [l IH] using (well_founded_induction
                                 (Wf_nat.well_founded_ltof _ (@length byte))).
  rewrite chunks_step.
  destruct (firstn size l) as [|b c] eqn:E.
  - destruct l; [reflexivity|]. destruct size; [lia|discriminate E].
  - cbn [concat]. rewrite IH.
    + rewrite <- E. apply firstn_skipn.
    + unfold Wf_nat.ltof. rewrite length_skipn.
      destruct l; [destruct size; discriminate E|].
      cbn [length]. lia.
Qed.

(** Every chunk has between one byte and [size] bytes. *)
Lemma chunks_length size l :
  Forall (fun chunk => 1 <= length chunk <= size) (chunks size l).
Proof.
  induction l as [l IH] using (well_founded_induction
                                 (Wf_nat.well_founded_ltof _ (@length byte))).
  rewrite chunks_step.
  destruct (firstn size l) as [|b c] eqn:E; constructor.
  - rewrite <- E, length_firstn.
    destruct l; [destruct size; discriminate E|].
    destruct size; [discriminate E|]. cbn [length]. lia.
  - apply IH. unfold Wf_nat.ltof. rewrite length_skipn.
    destruct l; [destruct size; discriminate E|].
    destruct size; [discriminate E|]. cbn [length]. lia.
Qed.

(** The loop returns the encodings of the chunks of the file, in order,
    after what it was given. *)
Lemma read_loop_chunks size f enc pbar :
  fault f = None ->
  snd (read_loop size f enc pbar)
  = Ok (enc ++ map Base64.b64encode (chunks size (content f))).
Proof.
  funelim (read_loop size f enc pbar); loop_steps; simpl in *; intros Hfault.
  - apply read_Some in e as (E & _ & _).
    rewrite chunks_step, <- E, app_nil_r. reflexivity.
  - apply read_Some in Hread as (E & Hrest & Hf').
    rewrite Hfault in Hf'. rewrite (IHloop Hf').
    rewrite (chunks_step size (content f)), <- E, <- Hrest.
    destruct c as [|b c]; [contradiction|].
    rewrite <- app_assoc. reflexivity.
  - unfold read in e. rewrite Hfault in e. discriminate.
Qed.

(** ** Padding inside a payload *)

Lemma b2a_eqb_pad n :
  (n < 64)%N -> Byte.eqb (Base64.b2a n) Base64.BASE64_PAD = false.
Proof.
  intros H. destruct (Byte.eqb (Base64.b2a n) Base64.BASE64_PAD) eqn:E;
    [|reflexivity].
  apply Byte.byte_dec_bl in E. exfalso. exact (b2a_not_pad n H E).
Qed.

Lemma b64encode_not_nil l : l <> [] -> Base64.b64encode l <> [].
Proof. intros H E. apply H. exact (b64encode_nil_inv l E). Qed.

(** The validating decoder refuses an encoding that ends in padding and is
    followed by anything. *)
Lemma b64decode_padding_inside l tail :
  length l mod 3 <> 0 -> tail <> [] ->
  Base64.b64decode (Base64.b64encode l ++ tail) = None.
Proof.
  intros Hmod Htail. revert Hmod.
  induction l as [| a | a b | a b c l IH] using list_ind3; intros Hmod.
  - contradiction.
  - destruct tail as [|t tail]; [contradiction|].
    cbn [Base64.b64encode Base64.b64decode app].
    rewrite !a2b_b2a by sextet_bounds. rewrite a2b_pad. reflexivity.
  - destruct tail as [|t tail]; [contradiction|].
    cbn [Base64.b64encode Base64.b64decode app].
    rewrite !a2b_b2a by sextet_bounds. rewrite a2b_pad. reflexivity.
  - cbn [length] in Hmod.
    replace (S (S (S (length l)))) with (length l + 1 * 3) in Hmod by lia.
    rewrite Nat.Div0.mod_add in Hmod.
    cbn [Base64.b64encode Base64.b64decode app].
    rewrite !a2b_b2a by sextet_bounds.
    rewrite (IH Hmod).
    destruct (Base64.b64encode l ++ tail) as [|x rest] eqn:E.
    + apply app_eq_nil in E as [_ E]. contradiction.
    + reflexivity.
Qed.

(** The default decoder on an encoding followed by anything: after a
    whole number of groups it goes on with what follows, and at the padding
    of a last group it stops and drops what follows. *)
Lemma a2b_base64_loop_b64encode l tail out :
  Base64.a2b_base64_loop (Base64.b64encode l ++ tail) 0 0%N 0 out
  = if Nat.eqb (length l mod 3) 0
    then Base64.a2b_base64_loop tail 0 0%N 0 (out ++ l)
    else Some (out ++ l).
Proof.
  revert out.
  induction l as [| a | a b | a b c l IH] using list_ind3; intros out.
  - cbn [Base64.b64encode app length Nat.modulo]. rewrite app_nil_r.
    reflexivity.
  - cbn [Base64.b64encode app Base64.a2b_base64_loop].
    rewrite !b2a_eqb_pad, !a2b_b2a by sextet_bounds.
    rewrite pad_eqb.
    change (Base64.byte_of_N
              (Base64.sextet1 (to_N a) * 4 + Base64.sextet2 (to_N a) 0 / 16))
      with (Base64.octet1 (Base64.sextet1 (to_N a))
              (Base64.sextet2 (to_N a) 0)).
    rewrite octet1_sextets by reflexivity. reflexivity.
  - cbn [Base64.b64encode app Base64.a2b_base64_loop].
    rewrite !b2a_eqb_pad, !a2b_b2a by sextet_bounds.
    rewrite pad_eqb.
    change (Base64.byte_of_N
              (Base64.sextet1 (to_N a) * 4
               + Base64.sextet2 (to_N a) (to_N b) / 16))
      with (Base64.octet1 (Base64.sextet1 (to_N a))
              (Base64.sextet2 (to_N a) (to_N b))).
    change (Base64.byte_of_N
              (Base64.sextet2 (to_N a) (to_N b) mod 16 * 16
               + Base64.sextet3 (to_N b) 0 / 4))
      with (Base64.octet2 (Base64.sextet2 (to_N a) (to_N b))
              (Base64.sextet3 (to_N b) 0)).
    rewrite octet1_sextets by apply to_N_lt.
    rewrite octet2_sextets by reflexivity.
    rewrite <- app_assoc. reflexivity.
  - cbn [Base64.b64encode app Base64.a2b_base64_loop].
    rewrite !b2a_eqb_pad, !a2b_b2a by sextet_bounds.
    change (Base64.byte_of_N
              (Base64.sextet1 (to_N a) * 4
               + Base64.sextet2 (to_N a) (to_N b) / 16))
      with (Base64.octet1 (Base64.sextet1 (to_N a))
              (Base64.sextet2 (to_N a) (to_N b))).
    change (Base64.byte_of_N
              (Base64.sextet2 (to_N a) (to_N b) mod 16 * 16
               + Base64.sextet3 (to_N b) (to_N c) / 4))
      with (Base64.octet2 (Base64.sextet2 (to_N a) (to_N b))
              (Base64.sextet3 (to_N b) (to_N c))).
    change (Base64.byte_of_N
              (Base64.sextet3 (to_N b) (to_N c) mod 4 * 64
               + Base64.sextet4 (to_N c)))
      with (Base64.octet3 (Base64.sextet3 (to_N b) (to_N c))
              (Base64.sextet4 (to_N c))).
    rewrite octet1_sextets by apply to_N_lt.
    rewrite octet2_sextets by apply to_N_lt.
    rewrite octet3_sextets.
    rewrite IH. rewrite <- !app_assoc. cbn [app length].
    replace (S (S (S (length l)))) with (length l + 1 * 3) by lia.
    rewrite Nat.Div0.mod_add. reflexivity.
Qed.

Lemma a2b_base64_b64encode l :
  Base64.a2b_base64 (Base64.b64encode l) = Some l.
Proof.
  unfold Base64.a2b_base64.
  rewrite <- (app_nil_r (Base64.b64encode l)), a2b_base64_loop_b64encode.
  destruct (Nat.eqb (length l mod 3) 0); reflexivity.
Qed.

(** The chunks of a file longer than one chunk: a full first chunk, and
    more. *)
Lemma chunks_long size l :
  0 < size -> size < length l ->
  exists next more,
    chunks size l = firstn size l :: next :: more
    /\ length (firstn size l) = size /\ next <> [].
Proof.
  intros Hsize Hlen.
  rewrite chunks_step.
  destruct (firstn size l) as [|b c] eqn:E.
  { apply (f_equal (@length byte)) in E. rewrite length_firstn in E.
    simpl in E. lia. }
  rewrite chunks_step.
  destruct (firstn size (skipn size l)) as [|b' c'] eqn:E'.
  { apply (f_equal (@length byte)) in E'.
    rewrite length_firstn, length_skipn in E'. simpl in E'. lia. }
  exists (b' :: c'), (chunks size (skipn size (skipn size l))).
  split; [reflexivity|]. split; [|discriminate].
  rewrite <- E, length_firstn. lia.
Qed.

(** What the decoders make of the chunks of a long file, encoded one by
    one with a chunk size that is not a multiple of three. *)
Lemma chunked_encoding_long size l :
  0 < size -> size mod 3 <> 0 -> size < length l ->
  Base64.b64decode (concat (map Base64.b64encode (chunks size l))) = None
  /\ Base64.a2b_base64 (concat (map Base64.b64encode (chunks size l)))
     = Some (firstn size l).
Proof.
  intros Hsize Hmod Hlen.
  destruct (chunks_long size l Hsize Hlen) as (next & more & -> & Hfirst & Hnext).
  cbn [map concat]. split.
  - apply b64decode_padding_inside.
    + rewrite Hfirst. exact Hmod.
    + intros E. apply app_eq_nil in E as [E _].
      exact (b64encode_not_nil next Hnext E).
  - unfold Base64.a2b_base64. rewrite a2b_base64_loop_b64encode, Hfirst.
    destruct (Nat.eqb_spec (size mod 3) 0); [contradiction|reflexivity].
Qed.

(** One chunk for a file that fits in one. *)
Lemma chunks_short size l :
  l <> [] -> length l <= size -> chunks size l = [l].
Proof.
  intros Hne Hlen. rewrite chunks_step, firstn_all2 by exact Hlen.
  destruct l as [|b l]; [contradiction|].
  rewrite chunks_step, skipn_all2 by exact Hlen.
  destruct size; reflexivity.
Qed.

Lemma chunks_nil size : chunks size [] = [].
Proof. destruct size; reflexivity. Qed.

(** The number of chunks. *)
Lemma length_chunks size l :
  0 < size -> length (chunks size l) = (length l + size - 1) / size.
Proof.
  intros Hsize.
  induction l as [l IH] using (well_founded_induction
                                 (Wf_nat.well_founded_ltof _ (@length byte))).
  destruct l as [|b l].
  { rewrite chunks_nil. cbn [length].
    symmetry. apply Nat.div_small. lia. }
  rewrite chunks_step.
  destruct (firstn size (b :: l)) as [|b' c] eqn:E.
  { destruct size; [lia|discriminate E]. }
  cbn [length]. rewrite IH.
  2:{ unfold Wf_nat.ltof. rewrite length_skipn. cbn [length]. lia. }
  rewrite length_skipn. cbn [length].
  destruct (Nat.le_gt_cases size (S (length l))) as [Hle|Hgt].
  - replace (S (length l) + size - 1)
      with ((S (length l) - size + size - 1) + 1 * size) by lia.
    rewrite Nat.div_add by lia. lia.
  - replace (S (length l) - size) with 0 by lia.
    rewrite (Nat.div_small (0 + size - 1)) by lia.
    apply (Nat.div_unique _ _ 1 (length l)); lia.
Qed.

(** ** More on the loop *)

(** The byte counts reported are the lengths of the chunks. *)
Lemma read_loop_updates_chunks size f enc pbar :
  fault f = None ->
  updates (fst (read_loop size f enc pbar))
  = map (@length byte) (chunks size (content f)).
Proof.
  funelim (read_loop size f enc pbar); loop_steps; simpl in *; intros Hfault.
  - apply read_Some in e as (E & _ & _).
    rewrite chunks_step, <- E. reflexivity.
  - apply read_Some in Hread as (E & Hrest & Hf').
    rewrite Hfault in Hf'. rewrite (IHloop Hf').
    rewrite (chunks_step size (content f)), <- E, <- Hrest.
    destruct c as [|b c]; [contradiction|]. reflexivity.
  - unfold read in e. rewrite Hfault in e. discriminate.
Qed.

(** Each update reports at least one byte and at most a chunk, whether the
    file is read to the end or not. *)
Lemma read_loop_update_bounds size f enc pbar :
  Forall (fun k => 1 <= k <= size) (updates (fst (read_loop size f enc pbar))).
Proof.
  funelim (read_loop size f enc pbar); loop_steps; simpl in *.
  - constructor.
  - constructor; [|exact IHloop].
    apply read_Some in Hread as (E & _ & _).
    destruct c as [|b c]; [contradiction|].
    apply (f_equal (@length byte)) in E. rewrite length_firstn in E.
    cbn [length] in *. lia.
  - constructor.
Qed.

Lemma last_cons_default {A} (x : A) xs d1 d2 :
  last (x :: xs) d1 = last (x :: xs) d2.
Proof.
  revert x. induction xs as [|y xs IH]; intros x; [reflexivity|].
  exact (IH y).
Qed.

(** After a readable file the bar stands at the count it started from plus
    the bytes of the file. *)
Lemma read_loop_final_count size f enc pbar :
  0 < size -> fault f = None ->
  last (map n (observations (fst (read_loop size f enc pbar)))) (n pbar)
  = n pbar + length (content f).
Proof.
  funelim (read_loop size f enc pbar); loop_steps; simpl in *;
    intros Hsize Hfault.
  - apply read_Some in e as (E & _ & _).
    destruct (content f) as [|x l]; [simpl; lia|].
    destruct size; [lia|discriminate E].
  - pose proof (read_content _ _ _ _ Hread) as Hc.
    apply read_Some in Hread as (_ & _ & Hf').
    rewrite Hfault in Hf'. specialize (IHloop Hsize Hf').
    rewrite Hc, length_app.
    destruct (map n (observations
                       (fst (read_loop size f' (encoded_chunks
                                                ++ [Base64.b64encode c])
                               (update pbar (length c)))))) as [|x xs] eqn:E.
    + simpl in IHloop. lia.
    + rewrite (last_cons_default x xs (n pbar) (n pbar + length c)), IHloop.
      lia.
  - unfold read in e. rewrite Hfault in e. discriminate.
Qed.

(** A device that fails at read number [k], counted from zero, on a file
    with at least [k] full chunks: the loop raises after reporting those
    [k] chunks. *)
Lemma read_loop_fault size f enc pbar k :
  0 < size -> fault f = Some k -> k * size <= length (content f) ->
  snd (read_loop size f enc pbar) = Raise OSError
  /\ list_sum (updates (fst (read_loop size f enc pbar))) = k * size.
Proof.
  revert k.
  funelim (read_loop size f enc pbar); loop_steps; simpl in *;
    intros k Hsize Hfault Hlen.
  - exfalso. unfold read in e. rewrite Hfault in e.
    destruct k as [|k]; [discriminate e|].
    injection e as E _.
    destruct (content f) as [|x l]; [simpl in Hlen; lia|].
    destruct size; [lia|discriminate E].
  - pose proof (read_content _ _ _ _ Hread) as Hc.
    unfold read in Hread. rewrite Hfault in Hread.
    destruct k as [|k]; [discriminate Hread|].
    injection Hread as E Hf'. subst f'. cbn [content fault option_map] in *.
    assert (Hfull : length c = size).
    { rewrite <- E, length_firstn. lia. }
    destruct (IHloop k Hsize eq_refl) as [Hraise Hsum].
    { rewrite length_skipn. lia. }
    split; [exact Hraise|]. rewrite Hsum, Hfull. reflexivity.
  - unfold read in e. rewrite Hfault in e.
    destruct k as [|k]; [|discriminate e].
    split; reflexivity.
Qed.

End Chunks.

(* ===================================================================== *)
(** * Behaviour of the upload beyond the happy path *)
(* ===================================================================== *)

Module Behaviour.
Import PyStrFacts Base64Facts ReadLoop Run Chunks.

(** ** What is sent *)

Lemma upload_transmitted cfg w local_file_path github_file_path
    commit_message file_size f :
  accepted (REPO_NAME cfg) = true ->
  os_path_getsize w local_file_path = Some file_size ->
  open_rb w local_file_path = Some f ->
  fault f = None ->
  transmitted (fst (upload_with_real_progress cfg w local_file_path
                      github_file_path commit_message))
  = Some (string_of_list_byte
            (concat (map Base64.b64encode (chunks 4096 (content f))))).
Proof.
  intros Hacc Hsize Hopen Hfault.
  destruct (upload_readable cfg w local_file_path github_file_path
              commit_message file_size f Hacc Hsize Hopen Hfault)
    as (t & encoded & Hloop & Hrun).
  pose proof (read_loop_chunks 4096 f [] {| n := 0; total := file_size |}
                Hfault) as Hchunks.
  pose proof (read_loop_puts 4096 f [] {| n := 0; total := file_size |}) as Hp.
  rewrite Hloop in Hchunks, Hp. cbn [fst snd app] in Hchunks, Hp.
  injection Hchunks as ->.
  rewrite Hrun. cbv zeta. unfold transmitted.
  destruct (requests_put w _ _ _); cbn [fst];
    rewrite puts_app, puts_file_events, Hp; reflexivity.
Qed.

(** The content sent for a readable file is the base64 encoding of its
    first 4096 bytes, then that of the next 4096, and so on to the last,
    shorter chunk: the chunks are the file cut every 4096 bytes. *)
Theorem transmitted_is_chunked_encoding cfg w local_file_path
    github_file_path commit_message file_size f :
  accepted (REPO_NAME cfg) = true ->
  os_path_getsize w local_file_path = Some file_size ->
  open_rb w local_file_path = Some f ->
  fault f = None ->
  transmitted (fst (upload_with_real_progress cfg w local_file_path
                      github_file_path commit_message))
  = Some (string_of_list_byte
            (concat (map Base64.b64encode (chunks 4096 (content f)))))
  /\ concat (chunks 4096 (content f)) = content f
  /\ Forall (fun chunk => 1 <= length chunk <= 4096)
       (chunks 4096 (content f))
  /\ length (chunks 4096 (content f)) = (length (content f) + 4095) / 4096.
Proof.
  intros Hacc Hsize Hopen Hfault.
  split; [eapply upload_transmitted; eassumption|].
  split; [apply concat_chunks; apply Nat.lt_0_succ|].
  split; [apply chunks_length|].
  rewrite length_chunks by apply Nat.lt_0_succ.
  f_equal. change 4096 with (S 4095) at 1. lia.
Qed.

Lemma transmitted_is_chunked_encoding_witness :
  transmitted (fst (upload_with_real_progress (sample_config "owner/repo")
                      (sample_world (repeat x01 5000) (Some created))
                      "ones.bin" "ones.bin" "add ones"))
  = Some (string_of_list_byte
            (Base64.b64encode (repeat x01 4096)
             ++ Base64.b64encode (repeat x01 904)))
  /\ length (chunks 4096 (repeat x01 5000)) = 2.
Proof.
  destruct (transmitted_is_chunked_encoding (sample_config "owner/repo")
              (sample_world (repeat x01 5000) (Some created))
              "ones.bin" "ones.bin" "add ones" 5000
              {| content := repeat x01 5000; fault := None |})
    as (Hsent & _ & _ & Hcount); try reflexivity.
  split.
  - rewrite Hsent. vm_compute. reflexivity.
  - etransitivity; [exact Hcount|vm_compute; reflexivity].
Defined.

(** A file of at most 4096 bytes is sent as its base64 encoding, and both
    decoders give the file back from what was sent. *)
Theorem short_file_round_trip cfg w local_file_path github_file_path
    commit_message file_size f :
  accepted (REPO_NAME cfg) = true ->
  os_path_getsize w local_file_path = Some file_size ->
  open_rb w local_file_path = Some f ->
  fault f = None ->
  length (content f) <= 4096 ->
  let payload := string_of_list_byte (Base64.b64encode (content f)) in
  transmitted (fst (upload_with_real_progress cfg w local_file_path
                      github_file_path commit_message)) = Some payload
  /\ Base64.b64decode (list_byte_of_string payload) = Some (content f)
  /\ Base64.a2b_base64 (list_byte_of_string payload) = Some (content f).
Proof.
  intros Hacc Hsize Hopen Hfault Hlen. cbv zeta.
  rewrite list_byte_of_string_of_list_byte.
  split; [|split; [apply b64decode_b64encode|apply a2b_base64_b64encode]].
  rewrite (upload_transmitted cfg w local_file_path github_file_path
             commit_message file_size f Hacc Hsize Hopen Hfault).
  destruct (content f) as [|b l] eqn:E.
  - rewrite chunks_nil. reflexivity.
  - rewrite chunks_short by (exact Hlen || discriminate).
    cbn [map concat]. rewrite app_nil_r. reflexivity.
Qed.

Lemma short_file_round_trip_witness :
  transmitted (fst (upload_with_real_progress (sample_config "owner/repo")
                      (sample_world (list_byte_of_string "hello")
                         (Some created))
                      "hello.txt" "hello.txt" "add hello"))
  = Some "aGVsbG8="
  /\ Base64.a2b_base64 (list_byte_of_string "aGVsbG8=")
     = Some (list_byte_of_string "hello").
Proof.
  destruct (short_file_round_trip (sample_config "owner/repo")
              (sample_world (list_byte_of_string "hello") (Some created))
              "hello.txt" "hello.txt" "add hello" 5
              {| content := list_byte_of_string "hello"; fault := None |})
    as (Hsent & _ & Hback); try reflexivity.
  - vm_compute. lia.
  - split; [exact Hsent|exact Hback].
Defined.

(** For every file of more than 4096 bytes, what is sent is not the
    encoding of the file: the validating decoder refuses it, and the
    default decoder returns the first 4096 bytes only. *)
Theorem long_file_payload_is_truncated cfg w local_file_path
    github_file_path commit_message file_size f :
  accepted (REPO_NAME cfg) = true ->
  os_path_getsize w local_file_path = Some file_size ->
  open_rb w local_file_path = Some f ->
  fault f = None ->
  4096 < length (content f) ->
  exists payload,
    transmitted (fst (upload_with_real_progress cfg w local_file_path
                        github_file_path commit_message)) = Some payload
    /\ payload <> string_of_list_byte (Base64.b64encode (content f))
    /\ Base64.b64decode (list_byte_of_string payload) = None
    /\ Base64.a2b_base64 (list_byte_of_string payload)
       = Some (firstn 4096 (content f)).
Proof.
  intros Hacc Hsize Hopen Hfault Hlen.
  eexists. split; [eapply upload_transmitted; eassumption|].
  rewrite list_byte_of_string_of_list_byte.
  destruct (chunked_encoding_long 4096 (content f)) as [Hstrict Hdefault];
    [apply Nat.lt_0_succ|vm_compute; discriminate|exact Hlen|].
  split; [|split; [exact Hstrict|exact Hdefault]].
  intros E.
  apply (f_equal list_byte_of_string) in E.
  rewrite !list_byte_of_string_of_list_byte in E.
  rewrite E, b64decode_b64encode in Hstrict. discriminate Hstrict.
Qed.

Lemma long_file_payload_is_truncated_witness :
  exists payload,
    transmitted (fst (upload_with_real_progress (sample_config "owner/repo")
                        (sample_world (repeat x01 5000) (Some created))
                        "ones.bin" "ones.bin" "add ones")) = Some payload
    /\ Base64.a2b_base64 (list_byte_of_string payload)
       = Some (repeat x01 4096).
Proof.
  destruct (long_file_payload_is_truncated (sample_config "owner/repo")
              (sample_world (repeat x01 5000) (Some created))
              "ones.bin" "ones.bin" "add ones" 5000
              {| content := repeat x01 5000; fault := None |})
    as (payload & Hsent & _ & _ & Hback); try reflexivity.
  - apply Nat.ltb_lt. vm_compute. reflexivity.
  - exists payload. split; [exact Hsent|].
    rewrite Hback. vm_compute. reflexivity.
Defined.

(** ** Refusals and failures *)

(** An identifier without a slash, or with nothing before its first slash,
    raises the format error, and nothing has been done by then: no file
    access, no request, no message. *)
Theorem malformed_identifier_is_rejected cfg w local_file_path
    github_file_path commit_message :
  PyStr.contains "/" (REPO_NAME cfg) = false
  \/ PyStr.before "/" (REPO_NAME cfg) = "" ->
  upload_with_real_progress cfg w local_file_path github_file_path
    commit_message
  = ([], Raise (ValueError
                  "GITHUB_REPO_NAME must be in 'owner/repo' format.")).
Proof.
  intros H. rewrite upload_run.
  replace (accepted (REPO_NAME cfg)) with false; [reflexivity|].
  unfold accepted. destruct H as [-> | ->]; [reflexivity|].
  symmetry. apply andb_false_r.
Qed.

Lemma malformed_identifier_is_rejected_witness :
  upload_with_real_progress (sample_config "repo")
    (sample_world (list_byte_of_string "hello") (Some created))
    "hello.txt" "hello.txt" "add hello"
  = ([], Raise (ValueError
                  "GITHUB_REPO_NAME must be in 'owner/repo' format."))
  /\ upload_with_real_progress (sample_config "/repo")
       (sample_world (list_byte_of_string "hello") (Some created))
       "hello.txt" "hello.txt" "add hello"
     = ([], Raise (ValueError
                     "GITHUB_REPO_NAME must be in 'owner/repo' format.")).
Proof.
  split.
  - apply (malformed_identifier_is_rejected (sample_config "repo")).
    left. reflexivity.
  - apply (malformed_identifier_is_rejected (sample_config "/repo")).
    right. reflexivity.
Defined.



(** Once the file is open it is closed again before anything else: the
    trace is the file accesses, with only reads and progress updates
    between the opening and the closing, and after them nothing but
    messages and the request.  This holds when a read fails too. *)
Theorem file_is_closed_before_request cfg w local_file_path github_file_path
    commit_message file_size f :
  accepted (REPO_NAME cfg) = true ->
  os_path_getsize w local_file_path = Some file_size ->
  open_rb w local_file_path = Some f ->
  exists t rest,
    fst (upload_with_real_progress cfg w local_file_path github_file_path
           commit_message)
    = Getsize local_file_path :: Open local_file_path :: t
      ++ Close :: rest
    /\ Forall loop_event t
    /\ Forall after_close rest.
Proof.
  intros Hacc Hsize Hopen. rewrite upload_run, Hacc, Hsize, Hopen.
  pose proof (read_loop_events 4096 f [] {| n := 0; total := file_size |})
    as Hev.
  destruct (read_loop 4096 f [] {| n := 0; total := file_size |})
    as [t r]; cbn [fst] in Hev.
  exists t.
  destruct r as [encoded|e'];
    [destruct (forallb is_ascii (concat encoded));
     [cbv zeta; destruct (requests_put w _ _ _)|]|];
    cbn [fst]; unfold file_events; cbn [app]; rewrite <- ?app_assoc;
    cbn [app]; eexists; (split; [reflexivity|]); (split; [exact Hev|]);
    repeat constructor.
Qed.

Lemma file_is_closed_before_request_witness :
  exists t rest,
    fst (upload_with_real_progress (sample_config "owner/repo")
           (faulty_world (repeat x01 5000) 1)
           "ones.bin" "ones.bin" "add ones")
    = Getsize "ones.bin" :: Open "ones.bin" :: t ++ Close :: rest
    /\ Forall loop_event t
    /\ Forall after_close rest.
Proof.
  apply (file_is_closed_before_request (sample_config "owner/repo")
           (faulty_world (repeat x01 5000) 1)
           "ones.bin" "ones.bin" "add ones" 5000
           {| content := repeat x01 5000; fault := Some 1 |});
    reflexivity.
Defined.

(** When the device fails at read number [k], counted from zero, of a file
    that has at least [k] full chunks, the function raises the error of the
    file after reporting [k] chunks of progress; the file is closed, and
    nothing is printed or sent. *)
Theorem read_failure_aborts cfg w local_file_path github_file_path
    commit_message file_size f k :
  accepted (REPO_NAME cfg) = true ->
  os_path_getsize w local_file_path = Some file_size ->
  open_rb w local_file_path = Some f ->
  fault f = Some k ->
  k * 4096 <= length (content f) ->
  exists t,
    upload_with_real_progress cfg w local_file_path github_file_path
      commit_message
    = (Getsize local_file_path :: Open local_file_path :: t ++ [Close],
       Raise OSError)
    /\ Forall loop_event t
    /\ list_sum (updates t) = k * 4096.
Proof.
  intros Hacc Hsize Hopen Hfault Hlen.
  rewrite upload_run, Hacc, Hsize, Hopen.
  destruct (read_loop_fault 4096 f [] {| n := 0; total := file_size |} k
              (Nat.lt_0_succ _) Hfault Hlen) as [Hraise Hsum].
  pose proof (read_loop_events 4096 f [] {| n := 0; total := file_size |})
    as Hev.
  destruct (read_loop 4096 f [] {| n := 0; total := file_size |})
    as [t r]; cbn [fst snd] in *.
  subst r. exists t. repeat split; assumption.
Qed.

Lemma read_failure_aborts_witness :
  exists t,
    upload_with_real_progress (sample_config "owner/repo")
      (faulty_world (repeat x01 5000) 1) "ones.bin" "ones.bin" "add ones"
    = (Getsize "ones.bin" :: Open "ones.bin" :: t ++ [Close], Raise OSError)
    /\ Forall loop_event t
    /\ list_sum (updates t) = 1 * 4096.
Proof.
  apply (read_failure_aborts (sample_config "owner/repo")
           (faulty_world (repeat x01 5000) 1)
           "ones.bin" "ones.bin" "add ones" 5000
           {| content := repeat x01 5000; fault := Some 1 |} 1);
    try reflexivity.
  apply Nat.leb_le. vm_compute. reflexivity.
Defined.



(** ** Progress *)

(** In every run, each progress update reports at least one byte and at
    most 4096. *)
Theorem update_sizes cfg w local_file_path github_file_path commit_message :
  Forall (fun k => 1 <= k <= 4096)
    (updates (fst (upload_with_real_progress cfg w local_file_path
                     github_file_path commit_message))).
Proof.
  rewrite upload_run.
  destruct (accepted (REPO_NAME cfg)); [|constructor].
  destruct (os_path_getsize w local_file_path) as [file_size|];
    [|constructor].
  destruct (open_rb w local_file_path) as [f|]; [|constructor].
  pose proof (read_loop_update_bounds 4096 f []
                {| n := 0; total := file_size |}) as Hb.
  destruct (read_loop 4096 f [] {| n := 0; total := file_size |})
    as [t r]; cbn [fst] in Hb.
  destruct r as [encoded|e'];
    [destruct (forallb is_ascii (concat encoded));
     [cbv zeta; destruct (requests_put w _ _ _)|]|];
    cbn [fst]; rewrite ?updates_app, updates_file_events;
    cbn [updates flat_map app]; rewrite ?app_nil_r; exact Hb.
Qed.

(** For a readable file the updates are the lengths of its chunks: there
    are as many as 4096 goes into the size of the file, rounded up, and
    none for an empty file. *)
Theorem update_count cfg w local_file_path github_file_path commit_message
    file_size f :
  accepted (REPO_NAME cfg) = true ->
  os_path_getsize w local_file_path = Some file_size ->
  open_rb w local_file_path = Some f ->
  fault f = None ->
  let reported := updates (fst (upload_with_real_progress cfg w
                                  local_file_path github_file_path
                                  commit_message)) in
  reported = map (@length byte) (chunks 4096 (content f))
  /\ length reported = (length (content f) + 4095) / 4096.
Proof.
  intros Hacc Hsize Hopen Hfault. cbv zeta.
  destruct (upload_readable cfg w local_file_path github_file_path
              commit_message file_size f Hacc Hsize Hopen Hfault)
    as (t & encoded & Hloop & Hrun).
  pose proof (read_loop_updates_chunks 4096 f []
                {| n := 0; total := file_size |} Hfault) as Hu.
  rewrite Hloop in Hu. cbn [fst] in Hu.
  assert (Hrep : updates (fst (upload_with_real_progress cfg w
                                 local_file_path github_file_path
                                 commit_message))
                 = map (@length byte) (chunks 4096 (content f))).
  { rewrite Hrun. cbv zeta.
    destruct (requests_put w _ _ _); cbn [fst];
      rewrite updates_app, updates_file_events; cbn [updates flat_map app];
      rewrite app_nil_r; exact Hu. }
  split; [exact Hrep|].
  rewrite Hrep, length_map, length_chunks by apply Nat.lt_0_succ.
  f_equal. change 4096 with (S 4095) at 1. lia.
Qed.

Lemma update_count_witness :
  updates (fst (upload_with_real_progress (sample_config "owner/repo")
                  (sample_world (repeat x01 5000) (Some created))
                  "ones.bin" "ones.bin" "add ones"))
  = [4096; 904].
Proof.
  destruct (update_count (sample_config "owner/repo")
              (sample_world (repeat x01 5000) (Some created))
              "ones.bin" "ones.bin" "add ones" 5000
              {| content := repeat x01 5000; fault := None |})
    as (Hrep & _); [reflexivity..|].
  etransitivity; [exact Hrep|vm_compute; reflexivity].
Defined.

(** The total of the bar is the size measured before the file was opened,
    and after a readable file its count is the number of bytes read,
    whatever the size measured was. *)
Theorem final_progress_count cfg w local_file_path github_file_path
    commit_message file_size f :
  accepted (REPO_NAME cfg) = true ->
  os_path_getsize w local_file_path = Some file_size ->
  open_rb w local_file_path = Some f ->
  fault f = None ->
  let obs := observations (fst (upload_with_real_progress cfg w
                                  local_file_path github_file_path
                                  commit_message)) in
  Forall (fun pbar => total pbar = file_size) obs
  /\ last (map n obs) 0 = length (content f).
Proof.
  intros Hacc Hsize Hopen Hfault. cbv zeta.
  destruct (upload_readable cfg w local_file_path github_file_path
              commit_message file_size f Hacc Hsize Hopen Hfault)
    as (t & encoded & Hloop & Hrun).
  pose proof (read_loop_observations 4096 f []
                {| n := 0; total := file_size |}) as Hobs.
  pose proof (read_loop_final_count 4096 f []
                {| n := 0; total := file_size |} (Nat.lt_0_succ _) Hfault)
    as Hlast.
  cbv zeta in Hobs. rewrite Hloop in Hobs, Hlast.
  cbn [fst n total] in Hobs, Hlast.
  assert (Hsame : observations
                    (fst (upload_with_real_progress cfg w local_file_path
                            github_file_path commit_message))
                  = observations t).
  { rewrite Hrun. cbv zeta.
    destruct (requests_put w _ _ _); cbn [fst];
      rewrite observations_app, observations_file_events;
      cbn [observations flat_map app]; apply app_nil_r. }
  rewrite Hsame. split; [|exact Hlast].
  destruct Hobs as [Hall _].
  eapply Forall_impl; [|exact Hall]. cbn beta. intros p H. apply H.
Qed.

(** A file that grew after its size was measured: the bar ends above its
    total. *)
Lemma final_progress_count_witness :
  let obs := observations
               (fst (upload_with_real_progress (sample_config "owner/repo")
                       (stale_world 3 (list_byte_of_string "hello"))
                       "hello.txt" "hello.txt" "add hello")) in
  Forall (fun pbar => total pbar = 3) obs /\ last (map n obs) 0 = 5.
Proof.
  apply (final_progress_count (sample_config "owner/repo")
           (stale_world 3 (list_byte_of_string "hello"))
           "hello.txt" "hello.txt" "add hello" 3
           {| content := list_byte_of_string "hello"; fault := None |});
    reflexivity.
Defined.

End Behaviour.

(* ===================================================================== *)
(** * The program around the upload *)
(* ===================================================================== *)

Module Program.
Import Console Run.

Local Open Scope string_scope.

(** ** Strings and their reversal *)

Lemma append_assoc (a b c : string) : (a ++ b) ++ c = a ++ (b ++ c).
Proof. induction a as [|x a IH]; simpl; [reflexivity|]. f_equal. exact IH. Qed.

Lemma append_empty_r (a : string) : a ++ "" = a.
Proof. induction a as [|x a IH]; simpl; [reflexivity|]. f_equal. exact IH. Qed.

Lemma length_append (a b : string) :
  String.length (a ++ b) = String.length a + String.length b.
Proof. induction a as [|x a IH]; simpl; [reflexivity|]. f_equal. exact IH. Qed.

Lemma list_ascii_of_string_append (a b : string) :
  list_ascii_of_string (a ++ b)
  = (list_ascii_of_string a ++ list_ascii_of_string b)%list.
Proof. induction a as [|x a IH]; simpl; [reflexivity|]. f_equal. exact IH. Qed.

Lemma string_of_list_ascii_app (a b : list ascii) :
  string_of_list_ascii (a ++ b)%list
  = string_of_list_ascii a ++ string_of_list_ascii b.
Proof. induction a as [|x a IH]; simpl; [reflexivity|]. f_equal. exact IH. Qed.

Lemma reverse_append (a b : string) :
  reverse (a ++ b) = reverse b ++ reverse a.
Proof.
  unfold reverse.
  rewrite list_ascii_of_string_append, rev_app_distr.
  apply string_of_list_ascii_app.
Qed.

Lemma reverse_involutive (s : string) : reverse (reverse s) = s.
Proof.
  unfold reverse.
  rewrite list_ascii_of_string_of_list_ascii, rev_involutive.
  apply string_of_list_ascii_of_string.
Qed.

Lemma length_string_of_list_ascii (l : list ascii) :
  String.length (string_of_list_ascii l) = List.length l.
Proof. induction l as [|x l IH]; simpl; [reflexivity|]. f_equal. exact IH. Qed.

Lemma length_reverse (s : string) :
  String.length (reverse s) = String.length s.
Proof.
  unfold reverse.
  rewrite length_string_of_list_ascii, length_rev.
  rewrite <- (string_of_list_ascii_of_string s) at 2.
  symmetry. apply length_string_of_list_ascii.
Qed.

(** ** Stripping *)

(** A whitespace character at the head of a string is found there, and
    what follows it is what is left. *)
Lemma first_match_whitespace p rest :
  In p whitespace -> first_match whitespace (p ++ rest) = Some rest.
Proof.
  intros H. unfold whitespace in H. cbn [In] in H.
  repeat (destruct H as [<-|H]; [reflexivity|]).
  destruct H.
Qed.

Lemma first_match_reversed p rest :
  In p (map reverse whitespace) ->
  first_match (map reverse whitespace) (p ++ rest) = Some rest.
Proof.
  intros H.
  let v := eval vm_compute in (map reverse whitespace) in
  change (map reverse whitespace) with v in H |- *.
  cbn [In] in H.
  repeat (destruct H as [<-|H]; [reflexivity|]).
  destruct H.
Qed.

Lemma whitespace_not_empty p : In p whitespace -> 1 <= String.length p.
Proof.
  intros H. unfold whitespace in H. cbn [In] in H.
  repeat (destruct H as [<-|H]; [simpl; lia|]).
  destruct H.
Qed.

Lemma reversed_not_empty p :
  In p (map reverse whitespace) -> 1 <= String.length p.
Proof.
  intros H. apply in_map_iff in H as (q & <- & Hq).
  rewrite length_reverse. apply whitespace_not_empty. exact Hq.
Qed.

(** No whitespace character begins with a visible ASCII character, read
    forwards or backwards. *)
Lemma first_match_printable c rest :
  printable c = true -> first_match whitespace (String c rest) = None.
Proof.
  destruct c as [[] [] [] [] [] [] [] []]; intros H;
    try discriminate H; reflexivity.
Qed.

Lemma first_match_reversed_printable c rest :
  printable c = true ->
  first_match (map reverse whitespace) (String c rest) = None.
Proof.
  let v := eval vm_compute in (map reverse whitespace) in
  change (map reverse whitespace) with v.
  destruct c as [[] [] [] [] [] [] [] []]; intros H;
    try discriminate H; reflexivity.
Qed.

Section Strip.
Variable pats : list string.
Hypothesis pats_found :
  forall p rest, In p pats -> first_match pats (p ++ rest) = Some rest.
Hypothesis pats_not_empty : forall p, In p pats -> 1 <= String.length p.

(** Leading strings of [pats] are removed, down to a string that starts
    with none of them. *)
Lemma lstrip_fuel_made_of l s fuel :
  made_of pats l -> first_match pats s = None ->
  String.length l <= fuel ->
  lstrip_fuel fuel pats (l ++ s) = s.
Proof.
  intros Hl Hs. revert fuel.
  induction Hl as [|p l Hp Hl IH]; intros fuel Hfuel.
  - cbn [append]. destruct fuel; cbn [lstrip_fuel]; [reflexivity|].
    rewrite Hs. reflexivity.
  - rewrite length_append in Hfuel.
    pose proof (pats_not_empty p Hp).
    destruct fuel as [|fuel]; [lia|].
    cbn [lstrip_fuel]. rewrite append_assoc, (pats_found p _ Hp).
    apply IH. lia.
Qed.

(** A string of [pats] only is removed whole. *)
Lemma lstrip_fuel_all l fuel :
  made_of pats l -> String.length l <= fuel ->
  lstrip_fuel fuel pats l = "".
Proof.
  intros Hl Hfuel.
  rewrite <- (append_empty_r l).
  apply lstrip_fuel_made_of; [exact Hl| |exact Hfuel].
  clear - pats_not_empty.
  induction pats as [|p ps IH]; [reflexivity|].
  cbn [first_match].
  destruct p as [|x p]; [specialize (pats_not_empty "" (or_introl eq_refl));
                         simpl in pats_not_empty; lia|].
  cbn [after_prefix]. apply IH.
  intros q Hq. apply pats_not_empty. right. exact Hq.
Qed.

Lemma made_of_append l1 l2 :
  made_of pats l1 -> made_of pats l2 -> made_of pats (l1 ++ l2).
Proof.
  induction 1 as [|p l Hp Hl IH]; intros H2; [exact H2|].
  rewrite append_assoc. constructor; [exact Hp|]. exact (IH H2).
Qed.

End Strip.

Lemma made_of_reverse l :
  made_of whitespace l -> made_of (map reverse whitespace) (reverse l).
Proof.
  induction 1 as [|p l Hp Hl IH]; [constructor|].
  rewrite reverse_append.
  apply made_of_append; [exact IH|].
  rewrite <- (append_empty_r (reverse p)).
  constructor; [|constructor].
  apply in_map. exact Hp.
Qed.

(** Whitespace around an answer is removed, and the answer is left as it
    is. *)
Lemma strip_padded l s r :
  blank l -> blank r -> plain s = true -> strip (l ++ s ++ r) = s.
Proof.
  unfold blank. intros Hl Hr Hs.
  destruct s as [|a s].
  { cbn [append]. unfold strip.
    assert (E : lstrip (l ++ r) = "").
    { unfold lstrip. apply (lstrip_fuel_all whitespace first_match_whitespace
               whitespace_not_empty).
      - apply made_of_append; assumption.
      - lia. }
    rewrite E. reflexivity. }
  unfold plain in Hs.
  destruct (reverse (String a s)) as [|b t] eqn:Hrev.
  { apply (f_equal String.length) in Hrev.
    rewrite length_reverse in Hrev. discriminate Hrev. }
  apply andb_true_iff in Hs as [Ha Hb].
  assert (E : lstrip (l ++ String a s ++ r) = String a s ++ r).
  { unfold lstrip.
    apply (lstrip_fuel_made_of whitespace first_match_whitespace
             whitespace_not_empty); [exact Hl| |rewrite length_append; lia].
    exact (first_match_printable a (s ++ r) Ha). }
  unfold strip. rewrite E. unfold rstrip.
  rewrite reverse_append, Hrev.
  rewrite (lstrip_fuel_made_of (map reverse whitespace) first_match_reversed
             reversed_not_empty).
  - rewrite <- Hrev. apply reverse_involutive.
  - apply made_of_reverse. exact Hr.
  - exact (first_match_reversed_printable b t Hb).
  - rewrite length_reverse, length_append. lia.
Qed.

(** ** The program *)

(** When the input ends before the three answers are given, the program
    stops with [EOFError]; it has shown prompts and nothing else: the
    upload has not started. *)
Theorem input_ends_early cfg w stdin :
  List.length stdin < 3 ->
  snd (main cfg w stdin) = EOFError
  /\ Forall (fun ev => exists text, ev = Prompt text) (fst (main cfg w stdin))
  /\ List.length (fst (main cfg w stdin)) = S (List.length stdin).
Proof.
  intros H.
  destruct stdin as [|line1 [|line2 [|line3 stdin]]];
    [| | |cbn [List.length] in H; lia];
    cbn [main input fst snd List.length];
    (split; [reflexivity|]); (split; [|reflexivity]);
    repeat constructor; eexists; reflexivity.
Qed.

Lemma input_ends_early_witness :
  main (sample_config "owner/repo")
    (sample_world (list_byte_of_string "hello") (Some created))
    ["hello.txt"; "docs/hello.txt"]
  = ([Prompt local_prompt; Prompt github_prompt; Prompt commit_prompt],
     EOFError).
Proof.
  pose proof (input_ends_early (sample_config "owner/repo")
                (sample_world (list_byte_of_string "hello") (Some created))
                ["hello.txt"; "docs/hello.txt"]) as H.
  destruct H as (Hexit & _ & _); [cbn [List.length]; lia|].
  apply injective_projections; [reflexivity|exact Hexit].
Defined.

(** Whitespace typed or pasted around the three answers does not count:
    the program runs the upload on the answers without it, and lines after
    the third are not read. *)
Theorem answers_are_stripped cfg w l1 a1 r1 l2 a2 r2 l3 a3 r3 more :
  blank l1 -> blank r1 -> plain a1 = true ->
  blank l2 -> blank r2 -> plain a2 = true ->
  blank l3 -> blank r3 -> plain a3 = true ->
  main cfg w ((l1 ++ a1 ++ r1) :: (l2 ++ a2 ++ r2) :: (l3 ++ a3 ++ r3) :: more)
  = ([Prompt local_prompt; Prompt github_prompt; Prompt commit_prompt]
       ++ map Inner (fst (upload_with_real_progress cfg w a1 a2 a3)),
     match snd (upload_with_real_progress cfg w a1 a2 a3) with
     | Ok _ => Finished
     | Raise e => Uncaught e
     end)%list.
Proof.
  intros Hl1 Hr1 Ha1 Hl2 Hr2 Ha2 Hl3 Hr3 Ha3.
  cbn [main input].
  rewrite (strip_padded l1 a1 r1 Hl1 Hr1 Ha1).
  rewrite (strip_padded l2 a2 r2 Hl2 Hr2 Ha2).
  rewrite (strip_padded l3 a3 r3 Hl3 Hr3 Ha3).
  destruct (upload_with_real_progress cfg w a1 a2 a3) as [t r].
  reflexivity.
Qed.

Lemma blank_space : blank " ".
Proof.
  apply (made_of_more whitespace " " ""); [|constructor].
  unfold whitespace. do 9 right. left. reflexivity.
Qed.

Lemma blank_empty : blank "".
Proof. constructor. Qed.

Lemma answers_are_stripped_witness :
  snd (main (sample_config "owner/repo")
         (sample_world (list_byte_of_string "hello") (Some created))
         [" hello.txt "; " docs/hello.txt"; "add hello "; "ignored"])
  = Finished.
Proof.
  pose proof (answers_are_stripped (sample_config "owner/repo")
                (sample_world (list_byte_of_string "hello") (Some created))
                " " "hello.txt" " " " " "docs/hello.txt" ""
                "" "add hello" " " ["ignored"]
                blank_space blank_space eq_refl
                blank_space blank_empty eq_refl
                blank_empty blank_space eq_refl) as H.
  apply (f_equal snd) in H. exact H.
Defined.

(** The repository identifier is only looked at once the three answers are
    in: with a malformed identifier the program asks its three questions
    and then stops with the format error, having touched no file. *)
Theorem prompts_precede_validation cfg w line1 line2 line3 more :
  PyStr.contains "/" (REPO_NAME cfg) = false
  \/ PyStr.before "/" (REPO_NAME cfg) = "" ->
  main cfg w (line1 :: line2 :: line3 :: more)
  = ([Prompt local_prompt; Prompt github_prompt; Prompt commit_prompt],
     Uncaught (ValueError
                 "GITHUB_REPO_NAME must be in 'owner/repo' format.")).
Proof.
  intros H. cbn [main input]. rewrite upload_run.
  replace (accepted (REPO_NAME cfg)) with false; [reflexivity|].
  unfold accepted. destruct H as [-> | ->]; [reflexivity|].
  symmetry. apply andb_false_r.
Qed.

Lemma prompts_precede_validation_witness :
  main (sample_config "repo")
    (sample_world (list_byte_of_string "hello") (Some created))
    ["hello.txt"; "docs/hello.txt"; "add hello"]
  = ([Prompt local_prompt; Prompt github_prompt; Prompt commit_prompt],
     Uncaught (ValueError
                 "GITHUB_REPO_NAME must be in 'owner/repo' format.")).
Proof.
  apply (prompts_precede_validation (sample_config "repo")).
  left. reflexivity.
Defined.



End Program.
